(** * shiftadd: shift-and-add stacking of CCD frames

    A shallow embedding of [hipercam/scripts/shiftadd.py].

    Modelling conventions.
    - Python floats are modelled by exact rationals ([Q], compared with
      [==]); not-a-number is represented only where the program creates it
      on purpose, namely in pixel grids ([pixel]).
    - Python [int] values are [Z]; [//] is [Z.div] (floor division for the
      positive binning factors the window headers carry).
    - Ordered dictionaries (an MCCD of CCDs, a CCD of windows, the aperture
      table) are association lists, since the program iterates over them in
      order.
    - Exceptions are the [Err] branch of [result]; calls to the external
      collaborators ([moveApers], the [reproject] kernels, the numpy/astropy
      combination) are recorded in a trace of [event]s, so that "before any
      resampling" and "before any combination" can be stated. *)

From Stdlib Require Import String List ZArith QArith Qabs Qminmax Bool Lia Lqa.
From Stdlib Require DecimalString.
Import ListNotations.

Local Open Scope Q_scope.

(** ** Numeric helpers (numpy on exact rationals) *)

(** [np.sum] over a one-dimensional array. *)
Definition Qsum (l : list Q) : Q := fold_right Qplus 0 l.

Definition Qlen {A : Type} (l : list A) : Q := inject_Z (Z.of_nat (length l)).

(** [np.mean] over a non-empty one-dimensional array. *)
Definition Qmean (l : list Q) : Q := Qsum l / Qlen l.

(** [int(x)] on a float: truncation towards zero. *)
Definition py_int (x : Q) : Z := Z.quot (Qnum x) (Zpos (Qden x)).

(** [np.argmin]: the index of the first occurrence of the minimum,
    together with the minimum itself. *)
Fixpoint argmin_aux (l : list Q) : option (nat * Q) :=
  match l with
  | [] => None
  | x :: t =>
      match argmin_aux t with
      | None => Some (O, x)
      | Some (k, m) => if Qle_bool x m then Some (O, x) else Some (S k, m)
      end
  end.

Definition argmin (l : list Q) : option nat := option_map fst (argmin_aux l).

(** ** Drift normaliser (lines 509-516) *)

Definition offset : Type := (Q * Q)%type.

(** Two offsets are the same pair of numbers. *)
Definition off_eq (a b : offset) : Prop := fst a == fst b /\ snd a == snd b.

(** [offsets.mean(axis=0)] *)
Definition col_mean (l : list offset) : offset :=
  (Qmean (map fst l), Qmean (map snd l)).

Definition off_sub (a b : offset) : offset := (fst a - fst b, snd a - snd b).

(** [offsets -= m], broadcast over the rows. *)
Definition sub_all (l : list offset) (m : offset) : list offset :=
  map (fun o => off_sub o m) l.

(** One row of [np.sum(np.abs(offsets), axis=1)]. *)
Definition total_offset (o : offset) : Q := Qabs (fst o) + Qabs (snd o).

(** Step (a): [offsets -= offsets.mean(axis=0)]. *)
Definition centre (offsets : list offset) : list offset :=
  sub_all offsets (col_mean offsets).

(** Steps (a) and (b).  On an empty list [np.array([])] is one-dimensional
    and [np.sum(..., axis=1)] raises; that is the [None] result.  The
    in-place [offsets -= offsets[k]] reads a view of the array it writes;
    numpy resolves the overlap by copying, so every row has the same value
    subtracted.  The totals are compared exactly here: when two frames are
    at the same exact distance from the mean, the rounding of float64 can
    order them either way, and the program may then anchor on the other
    of the two. *)
Definition normalise_offsets (offsets : list offset) : option (list offset) :=
  match offsets with
  | [] => None
  | _ :: _ =>
      let centred := centre offsets in
      let total_offsets := map total_offset centred in
      match argmin total_offsets with
      | None => None
      | Some k =>
          match nth_error centred k with
          | None => None
          | Some anchor => Some (sub_all centred anchor)
          end
      end
  end.

(** ** Data model *)

(** A pixel of a resampled layer: a number, or the undefined marker that
    the program writes with [np.nan]. *)
Inductive pixel : Type :=
| NaN
| Val (v : Q).

Definition is_nan (p : pixel) : bool :=
  match p with NaN => true | Val _ => false end.

(** A two-dimensional array, rows (y) of columns (x). *)
Definition grid : Type := list (list pixel).

Definition grid_get (g : grid) (r c : nat) : option pixel :=
  match nth_error g r with
  | Some row => nth_error row c
  | None => None
  end.

(** A window: lower-left corner in unbinned pixels, binning factors
    (positive in every window header), binned size and pixel data. *)
Record Window : Type := mkWindow {
  llx : Z; lly : Z; xbin : Z; ybin : Z; nx : Z; ny : Z; data : grid
}.

Definition set_data (w : Window) (d : grid) : Window :=
  mkWindow (llx w) (lly w) (xbin w) (ybin w) (nx w) (ny w) d.

(** The header keywords the program reads; [None] is a missing keyword. *)
Record Header : Type := mkHeader {
  RADEG : option Q; DECDEG : option Q; INSTRPA : option Q; MJDUTC : option Q
}.

Record CCD : Type := mkCCD {
  is_data : bool;
  nxtot : Z; nytot : Z;
  head_xbin : Z; head_ybin : Z;
  winds : list (string * Window)
}.

Definition set_winds (c : CCD) (ws : list (string * Window)) : CCD :=
  mkCCD (is_data c) (nxtot c) (nytot c) (head_xbin c) (head_ybin c) ws.

Record MCCD : Type := mkMCCD {
  head : Header;
  ccds : list (string * CCD)
}.

Record Aperture : Type := mkAperture { ap_x : Q; ap_y : Q; ref : bool }.

(** The part of the reduction file the program reads: per CCD name, the
    apertures by name. *)
Record Rfile : Type := mkRfile {
  aper : list (string * list (string * Aperture))
}.

Record ApShift : Type := mkApShift { dx : Q; dy : Q }.

(** What [moveApers] leaves in [store]: the mean FWHM and, per aperture,
    its shift. *)
Record Store : Type := mkStore {
  mfwhm : Q;
  shifts : list (string * ApShift)
}.

(** The fields of an astropy WCS the program touches. *)
Record WCS : Type := mkWCS {
  crpix : Q * Q;
  crval : Q * Q;
  cd : (Q * Q) * (Q * Q);
  celestial : bool
}.

Definition set_crpix (w : WCS) (c : Q * Q) : WCS :=
  mkWCS c (crval w) (cd w) (celestial w).

(** [wcs.WCS(naxis=2)] *)
Definition basic_wcs : WCS := mkWCS (0, 0) (0, 0) ((1, 0), (0, 1)) false.

(** [new_wcs] (lines 61-67) *)
Definition new_wcs (wbase : WCS) (dx0 dy0 : Q) : WCS :=
  set_crpix wbase (- dx0, - dy0).

(** [d[k]] on a dictionary. *)
Fixpoint lookup {A : Type} (k : string) (d : list (string * A)) : option A :=
  match d with
  | [] => None
  | (k', v) :: t => if String.eqb k k' then Some v else lookup k t
  end.

(** ** Python slices *)

(** How a slice bound is clipped against a dimension of length [n]:
    a negative bound counts from the end. *)
Definition slice_index (n i : Z) : Z :=
  if (i <? 0)%Z then Z.max (i + n) 0 else Z.min i n.

(** [l[a:b]] *)
Definition py_slice {A : Type} (l : list A) (a b : Z) : list A :=
  let n := Z.of_nat (length l) in
  let s := slice_index n a in
  let e := slice_index n b in
  firstn (Z.to_nat (e - s)) (skipn (Z.to_nat s) l).

(** [i] is one of the indices selected by [a:b] on a dimension of
    length [n]. *)
Definition in_slice (n a b i : Z) : bool :=
  ((slice_index n a <=? i) && (i <? slice_index n b))%Z.

(** [stack[ya:yb, xa:xb]] *)
Definition crop2d (g : grid) (ya yb xa xb : Z) : grid :=
  map (fun row => py_slice row xa xb) (py_slice g ya yb).

Fixpoint imap_from {A B : Type} (f : Z -> A -> B) (i : Z) (l : list A) : list B :=
  match l with
  | [] => []
  | x :: t => f i x :: imap_from f (i + 1)%Z t
  end.

(** Lines 621-630: [mask = zeros_like(g); mask[ya:yb, xa:xb] = True;
    g[~mask] = nan]. *)
Definition mask_outside (g : grid) (ya yb xa xb : Z) : grid :=
  let nrows := Z.of_nat (length g) in
  let ncols := Z.of_nat (length (hd [] g)) in
  imap_from
    (fun r row =>
       imap_from
         (fun c px =>
            if in_slice nrows ya yb r && in_slice ncols xa xb c then px else NaN)
         0%Z row)
    0%Z g.

(** [np.isnan(crop).any()] *)
Definition any_nan (g : grid) : bool := existsb (existsb is_nan) g.

(** ** Parameters of a run *)

Inductive reprmethod_t : Type := Interp | Adaptive | Exact.
Inductive reprkernel_t : Type := Hann | Gaussian.
Inductive method_t : Type := MethodM | MethodC.

Record Params : Type := mkParams {
  ref_cnam : string;
  first : nat;
  fthresh : Q;
  reprmethod : reprmethod_t;
  reprorder : Z;
  consflux : bool;
  reprkernel : reprkernel_t;
  kwidth : Q;
  regwidth : Q;
  method : method_t;
  sigma : Q;
  maxiters : Z
}.

(** Which kernel of the [reproject] package a window is handed to
    (lines 581-616). *)
Inductive reproj_call : Type :=
| CallInterp (order : Z)
| CallExact
| CallAdaptiveHann (conserve_flux : bool)
| CallAdaptiveGaussian (conserve_flux : bool) (kernel_width sample_region_width : Q).

Definition repr_call (p : Params) : reproj_call :=
  match reprmethod p with
  | Interp => CallInterp (reprorder p)
  | Exact => CallExact
  | Adaptive =>
      match reprkernel p with
      | Hann => CallAdaptiveHann (consflux p)
      | Gaussian => CallAdaptiveGaussian (consflux p) (kwidth p) (regwidth p)
      end
  end.

(** Which reduction along the frame axis is asked for (lines 654-674). *)
Inductive comb_call : Type :=
| CombMedian
| CombClippedMean (sig : Q) (iters : Z)
| CombMean.

Definition comb_of (p : Params) : comb_call :=
  match method p with
  | MethodM => CombMedian
  | MethodC =>
      if negb (Qle_bool (sigma p) 0) then CombClippedMean (sigma p) (maxiters p)
      else CombMean
  end.

(** ** Errors, events and the monad of a run *)

Inductive error : Type :=
| ErrRefNoData (frame : nat) (cnam : string)
    (* HipercamError: frame .. has no data in CCD .., so cannot be used as refccd *)
| ErrWcsExact
    (* HipercamError: failed to create WCS from header, cannot use 'exact' *)
| ErrNoData (cnam : string)
    (* HipercamError: found no data for CCD .. in the selected frames *)
| ErrNaNCrop (cnam wnam : string)
    (* HipercamError: NaN values detected in combined data for CCD .., window .. *)
| ErrKey (k : string)        (* KeyError *)
| ErrIndex                   (* IndexError *)
| ErrNumpy                   (* an exception raised inside numpy *)
| ErrIO                      (* the first frame cannot be read *)
| ErrExternal                (* moveApers raised *)
| ErrNonFinite.
    (* [np.mean] of an empty list of shifts is not-a-number.  The program
       goes on with it; every later offset is then not-a-number and the run
       ends in HipercamError or in the ValueError of [int(nan)].  Offsets
       are rationals here, so the model stops at the point the value
       appears. *)

(** Calls to the external collaborators, in the order they are made. *)
Inductive event : Type :=
| EvMoveApers (frame : nat)
| EvReproject (cnam : string) (nf : nat) (wnam : string) (pixel_crpix : Q * Q)
| EvCombine (cnam : string) (nlayers : nat).

Inductive result (A : Type) : Type :=
| Ok (a : A)
| Err (e : error).
Arguments Ok {A} a.
Arguments Err {A} e.

Definition M (A : Type) : Type := (list event * result A)%type.

Definition ret {A : Type} (a : A) : M A := ([], Ok a).
Definition raise {A : Type} (e : error) : M A := ([], Err e).
Definition emit (ev : event) : M unit := ([ev], Ok tt).

Definition bind {A B : Type} (m : M A) (f : A -> M B) : M B :=
  match m with
  | (t, Ok a) => let (t', r) := f a in (t ++ t', r)
  | (t, Err e) => (t, Err e)
  end.

Notation "x <- m ;; k" := (bind m (fun x => k))
  (at level 61, m at next level, right associativity).
Notation "m ;;; k" := (bind m (fun _ => k))
  (at level 61, right associativity).

(** An optional value, with the exception its absence stands for. *)
Definition lift {A : Type} (o : option A) (e : error) : M A :=
  match o with Some a => ret a | None => raise e end.

Fixpoint mapM {A B : Type} (f : A -> M B) (l : list A) : M (list B) :=
  match l with
  | [] => ret []
  | x :: t => y <- f x ;; ys <- mapM f t ;; ret (y :: ys)
  end.

Definition is_reproject (ev : event) : bool :=
  match ev with EvReproject _ _ _ _ => true | _ => false end.

Definition is_combine_of (cnam : string) (ev : event) : bool :=
  match ev with EvCombine c _ => String.eqb c cnam | _ => false end.

(** ** External collaborators *)

(** The functions the program calls in other packages.  [moveApers] stands
    for [initial_checks] followed by [moveApers] on the reference CCD of a
    frame ([None]: it raised); [cosd]/[sind] for [np.cos(np.radians(.))] and
    [np.sin(np.radians(.))]; [reproject] for the kernels of the [reproject]
    package; [combine] for [np.stack] followed by the median, mean or
    sigma-clipped mean along the frame axis ([None]: numpy raised). *)
Record Collaborators : Type := mkCollaborators {
  distance : Window -> Q -> Q -> Q;
  moveApers : string -> MCCD -> list (string * option string) -> Rfile -> option Store;
  cosd : Q -> Q;
  sind : Q -> Q;
  reproject : reproj_call -> grid -> WCS -> WCS -> Z * Z -> grid;
  combine : comb_call -> list grid -> option grid
}.

Section Model.

Variable X : Collaborators.

(** ** [wcs_from_header] (lines 70-116) *)

(** The pixel limits kept across the two loops: [llxmin], [llymin], [xbin],
    [ybin] ([urxmax] and [urymax] are tracked by the program but never
    read).  The first window of every CCD resets them. *)
Definition limits : Type := (Z * Z * Z * Z)%type.

Fixpoint scan_windows (n : nat) (ws : list (string * Window)) (acc : option limits)
  : option limits :=
  match ws with
  | [] => acc
  | (_, wind) :: t =>
      let acc' :=
        match n, acc with
        | O, _ => Some (llx wind, lly wind, xbin wind, ybin wind)
        | S _, Some (llxmin, llymin, xb, yb) =>
            Some (Z.min llxmin (llx wind), Z.min llymin (lly wind), xb, yb)
        | S _, None => None
        end in
      scan_windows (S n) t acc'
  end.

Definition scan_ccds (cs : list (string * CCD)) : option limits :=
  fold_left (fun acc c => scan_windows 0 (winds (snd c)) acc) cs None.

Definition ZEROPOINT : Q := 2097 # 10.
Definition SCALE : Q := 81 # 1000.

(** [None] when the function raises: a keyword is missing, no window was
    seen, or a binning factor is zero. *)
Definition wcs_from_header (mccd : MCCD) : option WCS :=
  match RADEG (head mccd), DECDEG (head mccd), INSTRPA (head mccd), scan_ccds (ccds mccd) with
  | Some ra, Some dec, Some instrpa, Some (llxmin, llymin, xb, yb) =>
      if ((xb =? 0) || (yb =? 0))%Z then None
      else
        let pa := instrpa - ZEROPOINT in
        let x0 := (1020 - inject_Z llxmin + 1) / inject_Z xb in
        let y0 := (524 - inject_Z llymin + 1) / inject_Z yb in
        let cpa := cosd X pa in
        let spa := sind X pa in
        let k := SCALE / 3600 in
        Some (mkWCS (x0, y0) (ra, dec)
                ((inject_Z xb * cpa * k, inject_Z yb * spa * k),
                 (- inject_Z xb * spa * k, inject_Z yb * cpa * k))
                true)
  | _, _, _, _ => None
  end.

(** Lines 522-532: the celestial WCS, or the basic one when the header
    does not give it and the method is not 'exact'. *)
Definition choose_wcs (p : Params) (output_mccd : MCCD) : M WCS :=
  match wcs_from_header output_mccd with
  | Some w => ret w
  | None =>
      match reprmethod p with
      | Exact => raise ErrWcsExact
      | _ => ret basic_wcs
      end
  end.

(** ** Offset estimator (lines 433-502) *)

Record est_state : Type := mkEst {
  xoff : Q; yoff : Q;
  offsets : list offset;
  fwhm_values : list Q;
  mjds : list Q
}.

Definition est_init : est_state := mkEst 0 0 [] [] [].

(** Lines 458-463 for one aperture: the first window that contains it,
    [Some None] when some window was tried and none contains it, [None]
    when the CCD has no window and the key is never set. *)
Fixpoint find_window (ws : list (string * Window)) (x y : Q) : option (option string) :=
  match ws with
  | [] => None
  | (wnam, wind) :: t =>
      if negb (Qle_bool (distance X wind x y) 0) then Some (Some wnam)
      else match find_window t x y with
           | None => Some None
           | Some r => Some r
           end
  end.

Fixpoint make_ccdwin (apers : list (string * Aperture)) (ws : list (string * Window))
  : list (string * option string) :=
  match apers with
  | [] => []
  | (apnam, a) :: t =>
      match find_window ws (ap_x a) (ap_y a) with
      | Some r => (apnam, r) :: make_ccdwin t ws
      | None => make_ccdwin t ws
      end
  end.

(** [[store[apnam][..] for apnam in rfile.aper[ref_cnam] if ...ref]] *)
Definition ref_shifts (store : Store) (apers : list (string * Aperture))
  : M (list ApShift) :=
  mapM (fun a => lift (lookup (fst a) (shifts store)) (ErrKey (fst a)))
       (filter (fun a => ref (snd a)) apers).

Definition np_mean (l : list Q) : M Q :=
  match l with
  | [] => raise ErrNonFinite
  | _ :: _ => ret (Qmean l)
  end.

(** [any([mccd[cnam].is_data() for cnam in mccd])] *)
Definition any_data (mccd : MCCD) : bool :=
  existsb (fun c => is_data (snd c)) (ccds mccd).

(** One iteration of the loop of line 439. *)
Definition est_step (p : Params) (rfile : Rfile) (nf : nat) (mccd : MCCD)
  (st : est_state) : M est_state :=
  ccd <- lift (lookup (ref_cnam p) (ccds mccd)) (ErrKey (ref_cnam p)) ;;
  if negb (is_data ccd) then
    if negb (any_data mccd) then ret st
    else raise (ErrRefNoData (nf + first p) (ref_cnam p))
  else
    apers <- lift (lookup (ref_cnam p) (aper rfile)) (ErrKey (ref_cnam p)) ;;
    let ccdwin := make_ccdwin apers (winds ccd) in
    emit (EvMoveApers (nf + first p)) ;;;
    store <- lift (moveApers X (ref_cnam p) mccd ccdwin rfile) ErrExternal ;;
    mjd <- lift (MJDUTC (head mccd)) (ErrKey "MJDUTC") ;;
    sh <- ref_shifts store apers ;;
    dx0 <- np_mean (map dx sh) ;;
    dy0 <- np_mean (map dy sh) ;;
    let xoff' := xoff st + dx0 in
    let yoff' := yoff st + dy0 in
    ret (mkEst xoff' yoff'
           (offsets st ++ [(xoff', yoff')])
           (fwhm_values st ++ [mfwhm store])
           (mjds st ++ [mjd])).

Fixpoint est_loop (p : Params) (rfile : Rfile) (nf : nat) (frames : list MCCD)
  (st : est_state) : M est_state :=
  match frames with
  | [] => ret st
  | mccd :: rest =>
      st' <- est_step p rfile nf mccd st ;;
      est_loop p rfile (S nf) rest st'
  end.

Definition estimate_offsets (p : Params) (rfile : Rfile) (frames : list MCCD)
  : M est_state :=
  est_loop p rfile 0 frames est_init.

(** ** Frame resampler (lines 538-633) *)

Record stack_state : Type := mkStack {
  arrs : list grid;
  nframes_used : nat
}.

Definition stack_init : stack_state := mkStack [] 0.

(** Lines 568-633 for one window of one used frame. *)
Definition resample_window (p : Params) (orig_wcs : WCS) (output_shape : Z * Z)
  (cnam : string) (nf : nat) (frame_offset : offset) (w : string * Window)
  : M grid :=
  let (wnam, wind) := w in
  let (frame_offset_x, frame_offset_y) := frame_offset in
  let (crval1, crval2) := crpix orig_wcs in
  let window_offset_x := (llx wind / xbin wind)%Z in
  let window_offset_y := (lly wind / ybin wind)%Z in
  let pixel_wcs :=
    set_crpix orig_wcs
      (crval1 + frame_offset_x / inject_Z (xbin wind) - inject_Z window_offset_x,
       crval2 + frame_offset_y / inject_Z (ybin wind) - inject_Z window_offset_y) in
  emit (EvReproject cnam nf wnam (crpix pixel_wcs)) ;;;
  let reprojected_data :=
    reproject X (repr_call p) (data wind) pixel_wcs orig_wcs output_shape in
  let xstart := (llx wind / xbin wind)%Z in
  let xend := (xstart + nx wind)%Z in
  let ystart := (lly wind / ybin wind)%Z in
  let yend := (ystart + ny wind)%Z in
  ret (mask_outside reprojected_data
         (ystart - py_int frame_offset_y) (yend - py_int frame_offset_y)
         (xstart - py_int frame_offset_x) (xend - py_int frame_offset_x)).

(** Line 547: [fthresh > 0 and fwhm_values[nf] > fthresh]; the list is
    indexed only when the threshold is positive. *)
Definition fwhm_too_large (p : Params) (fwhms : list Q) (nf : nat) : M bool :=
  if negb (Qle_bool (fthresh p) 0) then
    v <- lift (nth_error fwhms nf) ErrIndex ;;
    ret (negb (Qle_bool v (fthresh p)))
  else ret false.

(** One iteration of the loop of line 542. *)
Definition stack_step (p : Params) (fwhms : list Q) (offs : list offset)
  (orig_wcs : WCS) (cnam : string) (nf : nat) (ccd : CCD) (st : stack_state)
  : M stack_state :=
  if negb (is_data ccd) then ret st
  else
    skip <- fwhm_too_large p fwhms nf ;;
    if skip then ret st
    else
      frame_offset <- lift (nth_error offs nf) ErrIndex ;;
      let output_shape := ((nytot ccd / head_ybin ccd)%Z, (nxtot ccd / head_xbin ccd)%Z) in
      layers <- mapM (resample_window p orig_wcs output_shape cnam nf frame_offset)
                     (winds ccd) ;;
      ret (mkStack (arrs st ++ layers) (S (nframes_used st))).

(** The spool opened on one CCD yields that CCD of every frame. *)
Fixpoint stack_loop (p : Params) (fwhms : list Q) (offs : list offset)
  (orig_wcs : WCS) (cnam : string) (nf : nat) (frames : list MCCD)
  (st : stack_state) : M stack_state :=
  match frames with
  | [] => ret st
  | mccd :: rest =>
      ccd <- lift (lookup cnam (ccds mccd)) (ErrKey cnam) ;;
      st' <- stack_step p fwhms offs orig_wcs cnam nf ccd st ;;
      stack_loop p fwhms offs orig_wcs cnam (S nf) rest st'
  end.

(** ** Window reassembler (lines 677-691) *)

Definition window_crop (stack : grid) (wind : Window) : grid :=
  let xstart := (llx wind / xbin wind)%Z in
  let xend := (xstart + nx wind)%Z in
  let ystart := (lly wind / ybin wind)%Z in
  let yend := (ystart + ny wind)%Z in
  crop2d stack ystart yend xstart xend.

Fixpoint reassemble (cnam : string) (stack : grid) (ws : list (string * Window))
  : M (list (string * Window)) :=
  match ws with
  | [] => ret []
  | (wnam, wind) :: t =>
      let crop := window_crop stack wind in
      if any_nan crop then raise (ErrNaNCrop cnam wnam)
      else
        rest <- reassemble cnam stack t ;;
        ret ((wnam, set_data wind crop) :: rest)
  end.

(** ** One CCD (lines 537-691) *)

Definition process_ccd (p : Params) (fwhms : list Q) (offs : list offset)
  (orig_wcs : WCS) (frames : list MCCD) (c : string * CCD)
  : M (string * CCD * nat) :=
  let (cnam, out_ccd) := c in
  st <- stack_loop p fwhms offs orig_wcs cnam 0 frames stack_init ;;
  if (length (arrs st) =? 0)%nat || (nframes_used st =? 0)%nat
  then raise (ErrNoData cnam)
  else
    emit (EvCombine cnam (length (arrs st))) ;;;
    stack <- lift (combine X (comb_of p) (arrs st)) ErrNumpy ;;
    ws <- reassemble cnam stack (winds out_ccd) ;;
    ret (cnam, set_winds out_ccd ws, nframes_used st).

(** ** The run (lines 430-716) *)

(** [np.min(mjds) + 0.5 * (np.max(mjds) - np.min(mjds))]; numpy raises on
    an empty list. *)
Definition list_min (l : list Q) : option Q :=
  match l with
  | [] => None
  | x :: t => Some (fold_left Qmin t x)
  end.

Definition list_max (l : list Q) : option Q :=
  match l with
  | [] => None
  | x :: t => Some (fold_left Qmax t x)
  end.

Definition mid_time (l : list Q) : option Q :=
  match list_min l, list_max l with
  | Some lo, Some hi => Some (lo + (1 # 2) * (hi - lo))
  | _, _ => None
  end.

(** What is written out: the CCDs with their windows replaced by the
    crops, the frame count of every CCD as the history line records it,
    and the new MJDUTC keyword. *)
Record Output : Type := mkOutput {
  out_ccds : list (string * CCD);
  out_nframes : list (string * nat);
  out_mjdutc : Q
}.

Definition shiftadd (p : Params) (rfile : Rfile) (resource : list MCCD) : M Output :=
  est <- estimate_offsets p rfile resource ;;
  offs <- lift (normalise_offsets (offsets est)) ErrNumpy ;;
  output_mccd <- lift (hd_error resource) ErrIO ;;
  orig_wcs <- choose_wcs p output_mccd ;;
  done <- mapM (process_ccd p (fwhm_values est) offs orig_wcs resource)
               (ccds output_mccd) ;;
  mid <- lift (mid_time (mjds est)) ErrNumpy ;;
  ret (mkOutput (map (fun r => (fst (fst r), snd (fst r))) done)
                (map (fun r => (fst (fst r), snd r)) done)
                mid).

End Model.

(** ** The history line of the stack (lines 535, 637, 706-711) *)

(** [f"{n:d}"] for a frame count. *)
Definition dec (n : nat) : string :=
  DecimalString.NilEmpty.string_of_uint (Nat.to_uint n).

(** [f"CCD{cnam}({nframes_used:d}),"] *)
Definition header_entry (c : string * nat) : string :=
  ("CCD" ++ fst c ++ "(" ++ dec (snd c) ++ "),")%string.

(** [header_string], started as ["nframes="] and extended once per CCD. *)
Definition header_string (l : list (string * nat)) : string :=
  fold_left (fun acc c => (acc ++ header_entry c)%string) l "nframes="%string.

(** [s[:-1]] *)
Fixpoint drop_last (s : string) : string :=
  match s with
  | EmptyString => EmptyString
  | String c EmptyString => EmptyString
  | String c t => String c (drop_last t)
  end.

(** The text after ["Median stack: "] in the history of the output. *)
Definition nframes_text (l : list (string * nat)) : string :=
  drop_last (header_string l).

(** ** [CleanUp] (lines 36-58) *)

(** [str.isspace] on the characters below 256. *)
Definition is_space (c : Ascii.ascii) : bool :=
  let n := Ascii.nat_of_ascii c in
  ((9 <=? n) && (n <=? 13) || (28 <=? n) && (n <=? 32) || (n =? 133) || (n =? 160))%nat.

Fixpoint lstrip (s : string) : string :=
  match s with
  | EmptyString => EmptyString
  | String c t => if is_space c then lstrip t else s
  end.

Fixpoint rstrip (s : string) : string :=
  match s with
  | EmptyString => EmptyString
  | String c t =>
      match rstrip t with
      | EmptyString => if is_space c then EmptyString else String c EmptyString
      | r => String c r
      end
  end.

(** [line.strip()] *)
Definition strip (s : string) : string := rstrip (lstrip s).

(** The files on disk that matter here: a path leads to the lines of a
    file, or to nothing. *)
Definition FS : Type := string -> option (list string).

Inductive os_error : Type :=
| FileNotFoundError (path : string).

(** [os.remove(path)] *)
Definition os_remove (path : string) (fs : FS) : FS * option os_error :=
  match fs path with
  | Some _ => (fun q => if String.eqb q path then None else fs q, None)
  | None => (fs, Some (FileNotFoundError path))
  end.

(** Lines 55-56: the loop over the lines of the list.  The list was
    opened before the loop and stays readable when it is itself removed,
    so the lines are those read at the start. *)
Fixpoint remove_listed (lines : list string) (fs : FS) : FS * option os_error :=
  match lines with
  | [] => (fs, None)
  | line :: rest =>
      match os_remove (strip line) fs with
      | (fs', None) => remove_listed rest fs'
      | (fs', Some e) => (fs', Some e)
      end
  end.

(** [CleanUp.__exit__] (lines 52-58): with [temp] set, remove every file
    named in the list, then the list. *)
Definition CleanUp_exit (flist : string) (temp : bool) (fs : FS)
  : FS * option os_error :=
  if temp then
    match fs flist with
    | None => (fs, Some (FileNotFoundError flist))
    | Some lines =>
        match remove_listed lines fs with
        | (fs', None) => os_remove flist fs'
        | (fs', Some e) => (fs', Some e)
        end
    end
  else (fs, None).

(** A string of white space only. *)
Fixpoint all_space (s : string) : bool :=
  match s with
  | EmptyString => true
  | String c t => is_space c && all_space t
  end.

(** A string that neither starts nor ends with white space. *)
Definition trimmed (s : string) : Prop := lstrip s = s /\ rstrip s = s.

(** The end of a line. *)
Definition newline : string := String (Ascii.ascii_of_nat 10) EmptyString.

(** A small disk: a list of two frames, the frames, and a file that is
    not listed. *)
Definition toy_disk : FS :=
  fun path =>
    if String.eqb path "files.lis" then
      Some [("a.h" ++ newline)%string; (" b.h" ++ newline)%string]
    else if String.eqb path "a.h" then Some []
    else if String.eqb path "b.h" then Some []
    else if String.eqb path "keep.h" then Some []
    else None.

(** ** A concrete instance

    Toy collaborators and small frames, on which the model is run.  The toy
    [moveApers] reads the shift of every aperture and the FWHM off the first
    window of the reference CCD (pixels [0][0], [0][1] and [1][0]); the toy
    [reproject] fills the output grid with the first pixel of the window;
    the toy [combine] keeps, cell by cell, the first defined value. *)

Definition px (g : grid) (r c : nat) : Q :=
  match grid_get g r c with
  | Some (Val v) => v
  | _ => 0
  end.

Definition toy_moveApers (cnam : string) (mccd : MCCD)
  (ccdwin : list (string * option string)) (rfile : Rfile) : option Store :=
  match lookup cnam (ccds mccd) with
  | Some ccd =>
      match winds ccd with
      | (_, w) :: _ =>
          Some (mkStore (px (data w) 1 0)
                  (map (fun a => (fst a, mkApShift (px (data w) 0 0) (px (data w) 0 1)))
                       ccdwin))
      | [] => None
      end
  | None => None
  end.

Definition toy_reproject (_ : reproj_call) (d : grid) (_ _ : WCS) (shape : Z * Z) : grid :=
  repeat (repeat (Val (px d 0 0)) (Z.to_nat (snd shape))) (Z.to_nat (fst shape)).

Definition first_defined (a b : pixel) : pixel :=
  match a with NaN => b | Val _ => a end.

Fixpoint zip_with {A : Type} (f : A -> A -> A) (l1 l2 : list A) : list A :=
  match l1, l2 with
  | x :: t1, y :: t2 => f x y :: zip_with f t1 t2
  | _, _ => []
  end.

Definition toy_combine (_ : comb_call) (layers : list grid) : option grid :=
  match layers with
  | [] => None
  | g :: t => Some (fold_left (zip_with (zip_with first_defined)) t g)
  end.

Definition toy : Collaborators :=
  mkCollaborators (fun _ _ _ => 1) toy_moveApers (fun _ => 1) (fun _ => 0)
                  toy_reproject toy_combine.

(** A 2x2 window binned 2x2 that covers a 4x4 chip; [a], [b], [f] are the
    shift in x, the shift in y and the FWHM the toy fit will report. *)
Definition toy_window (a b f : Q) : Window :=
  mkWindow 1 1 2 2 2 2 [[Val a; Val b]; [Val f; Val 0]].

Definition toy_ccd (has_data : bool) (ws : list (string * Window)) : CCD :=
  mkCCD has_data 4 4 2 2 ws.

Definition toy_header (t : Q) : Header := mkHeader None None None (Some t).

(** A frame with CCDs "1" and "2", one window each. *)
Definition toy_frame (d1 d2 : bool) (a b f t : Q) : MCCD :=
  mkMCCD (toy_header t)
    [("1"%string, toy_ccd d1 [("W"%string, toy_window a b f)]);
     ("2"%string, toy_ccd d2 [("W"%string, toy_window a b f)])].

Definition toy_rfile : Rfile :=
  mkRfile [("1"%string, [("A"%string, mkAperture 1 1 true)])].

Definition toy_params (thresh : Q) (m : reprmethod_t) : Params :=
  mkParams "1" 1 thresh m 1 true Gaussian (13 # 10) 4 MethodM 3 3.

(** Three good frames; the second has FWHM 9 and the latest time stamp. *)
Definition toy_three_frames : list MCCD :=
  [toy_frame true true 0 0 2 10; toy_frame true true 0 0 9 30;
   toy_frame true true 0 0 3 20].

(** A frame without data in any CCD, followed by two good frames whose
    fitted shifts are 0 and 3 pixels in x. *)
Definition toy_gap_frames : list MCCD :=
  [toy_frame false false 0 0 2 5; toy_frame true true 0 0 2 10;
   toy_frame true true 3 0 2 20].

(** A frame whose only CCD has two windows, side by side on a 2x4 grid. *)
Definition toy_two_window_frame : MCCD :=
  mkMCCD (toy_header 10)
    [("1"%string,
      mkCCD true 8 4 2 2
        [("W1"%string, mkWindow 1 1 2 2 2 2 [[Val 0; Val 0]; [Val 2; Val 0]]);
         ("W2"%string, mkWindow 5 1 2 2 2 2 [[Val 0; Val 0]; [Val 2; Val 0]])])].

(** Frames in which CCD "2" never has data. *)
Definition toy_dead_ccd_frames : list MCCD :=
  [toy_frame true false 0 0 2 10; toy_frame true false 0 0 2 20].

(** Two frames 4 pixels apart in x; the first, which becomes the anchor,
    has FWHM 9. *)
Definition toy_drift_frames : list MCCD :=
  [toy_frame true true 0 0 9 10; toy_frame true true 4 0 2 20].

(** A window two binned columns wide at the left edge of a 1x6 grid. *)
Definition toy_edge_window : Window :=
  mkWindow 1 1 2 2 2 1 [[Val 7; Val 7]].

(** ** Notions used to state the properties *)

(** Frame [nf] survives the skip logic of the resampler for this CCD: it
    has data, and it is not excluded by the FWHM threshold. *)
Definition survives (p : Params) (fwhms : list Q) (nf : nat) (ccd : CCD) : bool :=
  is_data ccd &&
  negb (negb (Qle_bool (fthresh p) 0) &&
        match nth_error fwhms nf with
        | Some v => negb (Qle_bool v (fthresh p))
        | None => false
        end).

(** Over the frames from index [nf] on: [f] summed over the CCDs named
    [cnam] that survive. *)
Fixpoint sum_used (f : CCD -> nat) (p : Params) (fwhms : list Q) (cnam : string)
  (nf : nat) (frames : list MCCD) : nat :=
  match frames with
  | [] => 0
  | mccd :: rest =>
      match lookup cnam (ccds mccd) with
      | Some ccd => if survives p fwhms nf ccd then f ccd else 0
      | None => 0
      end + sum_used f p fwhms cnam (S nf) rest
  end.

(** The number of frames used for a CCD. *)
Definition used_frames := sum_used (fun _ => 1%nat).

(** The number of windows in the frames used for a CCD. *)
Definition used_windows := sum_used (fun ccd => length (winds ccd)).

(** Every frame from index [nf0] on is skipped for this CCD: it has no
    data, or the threshold is positive and the FWHM recorded at its index
    exceeds it. *)
Definition all_skipped (p : Params) (fwhms : list Q) (cnam : string) (nf0 : nat)
  (frames : list MCCD) : Prop :=
  forall k mccd,
    nth_error frames k = Some mccd ->
    exists ccd,
      lookup cnam (ccds mccd) = Some ccd /\
      (is_data ccd = false \/
       (0 < fthresh p /\
        exists v, nth_error fwhms (nf0 + k) = Some v /\ fthresh p < v)).

(** The windows of a CCD with their data replaced by the crops of the
    combined array. *)
Definition with_crops (stack : grid) (ws : list (string * Window))
  : list (string * Window) :=
  map (fun x => (fst x, set_data (snd x) (window_crop stack (snd x)))) ws.

(** No window of the list has an undefined cell in its crop. *)
Definition crops_defined (stack : grid) (ws : list (string * Window)) : Prop :=
  forall x, In x ws -> any_nan (window_crop stack (snd x)) = false.

(** The drifted footprint of a window on the output grid: the rows and
    columns of lines 622-628, as plain index ranges. *)
Definition in_footprint (wind : Window) (frame_offset : offset) (r c : Z) : bool :=
  let xstart := (llx wind / xbin wind)%Z in
  let xend := (xstart + nx wind)%Z in
  let ystart := (lly wind / ybin wind)%Z in
  let yend := (ystart + ny wind)%Z in
  ((ystart - py_int (snd frame_offset) <=? r) && (r <? yend - py_int (snd frame_offset)) &&
   (xstart - py_int (fst frame_offset) <=? c) && (c <? xend - py_int (fst frame_offset)))%Z.

(** The estimator records a frame (offset, FWHM, time) when the reference
    CCD has data in it. *)
Definition recorded (ref_name : string) (mccd : MCCD) : bool :=
  match lookup ref_name (ccds mccd) with
  | Some ccd => is_data ccd
  | None => false
  end.

(** How many of the frames the estimator records. *)
Definition count_recorded (ref_name : string) (frames : list MCCD) : nat :=
  length (filter (recorded ref_name) frames).

(** The time stamps of the recorded frames, in frame order. *)
Definition recorded_mjds (ref_name : string) (frames : list MCCD) : list Q :=
  flat_map (fun mccd =>
              if recorded ref_name mccd then
                match MJDUTC (head mccd) with Some t => [t] | None => [] end
              else [])
           frames.

(** The positions, counted from [nf], of the frames the estimator
    records. *)
Fixpoint recorded_indices (ref_name : string) (nf : nat) (frames : list MCCD)
  : list nat :=
  match frames with
  | [] => []
  | mccd :: rest =>
      if recorded ref_name mccd then nf :: recorded_indices ref_name (S nf) rest
      else recorded_indices ref_name (S nf) rest
  end.

(** * Properties *)

(** ** Sums and means *)

Lemma Qlen_cons {A : Type} (x : A) (l : list A) : Qlen (x :: l) == Qlen l + 1.
Proof.
  unfold Qlen. cbn [length]. rewrite Nat2Z.inj_succ. unfold Z.succ.
  rewrite inject_Z_plus. reflexivity.
Qed.

Lemma Qlen_nonneg {A : Type} (l : list A) : 0 <= Qlen l.
Proof.
  unfold Qlen. change 0 with (inject_Z 0). rewrite <- Zle_Qle. lia.
Qed.

Lemma Qlen_pos {A : Type} (l : list A) : l <> [] -> 0 < Qlen l.
Proof.
  destruct l as [|x l]; [congruence|]. intros _.
  rewrite Qlen_cons. pose proof (Qlen_nonneg l). lra.
Qed.

Lemma Qlen_map {A B : Type} (f : A -> B) (l : list A) : Qlen (map f l) = Qlen l.
Proof. unfold Qlen. now rewrite length_map. Qed.

Lemma Qsum_map_sub (m : Q) (l : list Q) :
  Qsum (map (fun x => x - m) l) == Qsum l - Qlen l * m.
Proof.
  induction l as [|a l IH].
  - cbn. unfold Qlen. cbn. ring.
  - cbn [map Qsum fold_right]. fold (Qsum (map (fun x => x - m) l)). fold (Qsum l).
    rewrite IH, Qlen_cons. ring.
Qed.

Lemma Qmean_map_sub (m : Q) (l : list Q) :
  l <> [] -> Qmean (map (fun x => x - m) l) == Qmean l - m.
Proof.
  intros Hne. unfold Qmean. rewrite Qsum_map_sub, Qlen_map.
  pose proof (Qlen_pos l Hne). field. lra.
Qed.

Lemma map_fst_sub_all (l : list offset) (m : offset) :
  map fst (sub_all l m) = map (fun x => x - fst m) (map fst l).
Proof. unfold sub_all. rewrite !map_map. reflexivity. Qed.

Lemma map_snd_sub_all (l : list offset) (m : offset) :
  map snd (sub_all l m) = map (fun x => x - snd m) (map snd l).
Proof. unfold sub_all. rewrite !map_map. reflexivity. Qed.

Lemma col_mean_sub_all (l : list offset) (m : offset) :
  l <> [] -> off_eq (col_mean (sub_all l m)) (off_sub (col_mean l) m).
Proof.
  intros Hne. unfold off_eq, col_mean. cbn [fst snd off_sub].
  rewrite map_fst_sub_all, map_snd_sub_all.
  split; apply Qmean_map_sub; destruct l; cbn; congruence.
Qed.

Lemma sub_all_nonempty (l : list offset) (m : offset) : l <> [] -> sub_all l m <> [].
Proof. destruct l; cbn; congruence. Qed.

Lemma col_mean_centre (l : list offset) :
  l <> [] -> off_eq (col_mean (centre l)) (0, 0).
Proof.
  intros Hne. destruct (col_mean_sub_all l (col_mean l) Hne) as [H1 H2].
  unfold centre. split; [rewrite H1 | rewrite H2]; cbn; ring.
Qed.

(** ** [np.argmin] *)

Lemma argmin_aux_some (l : list Q) : l <> [] -> exists k m, argmin_aux l = Some (k, m).
Proof.
  destruct l as [|x t]; [congruence|]. intros _. cbn.
  destruct (argmin_aux t) as [[k m]|]; [destruct (Qle_bool x m)|]; eauto.
Qed.

Lemma argmin_aux_spec (l : list Q) (k : nat) (m : Q) :
  argmin_aux l = Some (k, m) ->
  nth_error l k = Some m /\
  (forall j v, nth_error l j = Some v -> m <= v) /\
  (forall j v, (j < k)%nat -> nth_error l j = Some v -> m < v).
Proof.
  revert k m. induction l as [|x t IH]; intros k m H; [discriminate|].
  cbn in H. destruct (argmin_aux t) as [[k' m']|] eqn:E.
  - destruct (IH k' m' eq_refl) as (Hn & Hle & Hlt).
    destruct (Qle_bool x m') eqn:B.
    + injection H as <- <-. apply Qle_bool_iff in B.
      split; [reflexivity|]. split; [|intros; lia].
      intros [|j] v Hj; cbn in Hj.
      * injection Hj as <-. lra.
      * specialize (Hle j v Hj). lra.
    + injection H as <- <-.
      assert (m' < x).
      { apply Qnot_le_lt. intros C. apply Qle_bool_iff in C. congruence. }
      split; [exact Hn|]. split.
      * intros [|j] v Hj; cbn in Hj.
        -- injection Hj as <-. lra.
        -- eauto.
      * intros [|j] v Hj Hv; cbn in Hv.
        -- injection Hv as <-. assumption.
        -- apply (Hlt j); [lia | assumption].
  - injection H as <- <-. destruct t; [|cbn in E; destruct (argmin_aux t) as [[? ?]|];
      [destruct (Qle_bool q q0)|]; discriminate].
    split; [reflexivity|]. split; [|intros; lia].
    intros [|[|j]] v Hj; cbn in Hj; try discriminate. injection Hj as <-. lra.
Qed.

(** ** Drift normaliser *)

Lemma normalise_offsets_unfold (offs : list offset) :
  offs <> [] ->
  exists k t anchor,
    argmin_aux (map total_offset (centre offs)) = Some (k, t) /\
    nth_error (centre offs) k = Some anchor /\
    t = total_offset anchor /\
    normalise_offsets offs = Some (sub_all (centre offs) anchor).
Proof.
  intros Hne.
  assert (Hc : map total_offset (centre offs) <> []).
  { unfold centre, sub_all. destruct offs; cbn; congruence. }
  destruct (argmin_aux_some _ Hc) as (k & t & E).
  destruct (argmin_aux_spec _ _ _ E) as (Hn & _ & _).
  rewrite nth_error_map in Hn.
  destruct (nth_error (centre offs) k) as [anchor|] eqn:En; [|discriminate].
  cbn in Hn. injection Hn as Ht.
  exists k, t, anchor. repeat split; auto.
  destruct offs as [|o offs]; [congruence|].
  unfold normalise_offsets, argmin. rewrite E. cbn [option_map fst].
  now rewrite En.
Qed.

(** C6.  On a non-empty list the normaliser returns a list of the same
    length whose entry at [k], the first index that minimises the sum of
    the absolute components of the mean-subtracted offsets, is exactly
    (0,0). *)
Theorem normalise_offsets_anchor_zero (offs : list offset) (Hne : offs <> []) :
  exists out k anchor z,
    normalise_offsets offs = Some out /\
    length out = length offs /\
    argmin (map total_offset (centre offs)) = Some k /\
    nth_error (centre offs) k = Some anchor /\
    (forall j o, nth_error (centre offs) j = Some o ->
                 total_offset anchor <= total_offset o) /\
    nth_error out k = Some z /\
    off_eq z (0, 0).
Proof.
  destruct (normalise_offsets_unfold offs Hne) as (k & t & anchor & E & En & Ht & Hn).
  destruct (argmin_aux_spec _ _ _ E) as (_ & Hle & _).
  exists (sub_all (centre offs) anchor), k, anchor, (off_sub anchor anchor).
  split; [exact Hn|]. split.
  { unfold centre, sub_all. now rewrite !length_map. }
  split; [unfold argmin; now rewrite E|].
  split; [exact En|]. split.
  { intros j o Hj. subst t. apply (Hle j).
    rewrite nth_error_map, Hj. reflexivity. }
  split.
  { unfold sub_all at 1. rewrite nth_error_map, En. reflexivity. }
  split; cbn; ring.
Qed.

Lemma normalise_offsets_anchor_zero_witness :
  [(0, 0); (1, 0); (5, 0)] <> [] /\
  exists out k anchor z,
    normalise_offsets [(0, 0); (1, 0); (5, 0)] = Some out /\
    length out = 3%nat /\
    argmin (map total_offset (centre [(0, 0); (1, 0); (5, 0)])) = Some k /\
    nth_error (centre [(0, 0); (1, 0); (5, 0)]) k = Some anchor /\
    (forall j o, nth_error (centre [(0, 0); (1, 0); (5, 0)]) j = Some o ->
                 total_offset anchor <= total_offset o) /\
    nth_error out k = Some z /\
    off_eq z (0, 0).
Proof.
  split; [discriminate|].
  apply (normalise_offsets_anchor_zero [(0, 0); (1, 0); (5, 0)]). discriminate.
Defined.

(** C1, as the program has it.  After step (a) the column-wise mean is
    (0,0).  Step (b) then subtracts the anchor row from every row, so the
    mean of the list that is returned is minus the anchor's mean-subtracted
    offset; it is (0,0) only when the anchor sits on the mean. *)
Theorem normalise_offsets_mean (offs out : list offset)
  (H : normalise_offsets offs = Some out) :
  off_eq (col_mean (centre offs)) (0, 0) /\
  exists k anchor,
    argmin (map total_offset (centre offs)) = Some k /\
    nth_error (centre offs) k = Some anchor /\
    off_eq (col_mean out) (off_sub (0, 0) anchor).
Proof.
  assert (Hne : offs <> []) by (destruct offs; [discriminate | congruence]).
  split; [now apply col_mean_centre|].
  destruct (normalise_offsets_unfold offs Hne) as (k & t & anchor & E & En & Ht & Hn).
  rewrite Hn in H. injection H as <-.
  exists k, anchor. split; [unfold argmin; now rewrite E|]. split; [exact En|].
  assert (Hc : centre offs <> []) by (apply sub_all_nonempty; exact Hne).
  destruct (col_mean_sub_all (centre offs) anchor Hc) as [H1 H2].
  destruct (col_mean_centre offs Hne) as [Z1 Z2].
  cbn [fst snd off_sub] in *.
  split; cbn [fst snd off_sub]; [rewrite H1, Z1 | rewrite H2, Z2]; reflexivity.
Qed.

Lemma normalise_offsets_mean_witness :
  normalise_offsets [(0, 0); (1, 0); (5, 0)]
    = Some [(-9 # 9, 0 # 9); (0 # 9, 0 # 9); (36 # 9, 0 # 9)] /\
  off_eq (col_mean (centre [(0, 0); (1, 0); (5, 0)])) (0, 0) /\
  exists k anchor,
    argmin (map total_offset (centre [(0, 0); (1, 0); (5, 0)])) = Some k /\
    nth_error (centre [(0, 0); (1, 0); (5, 0)]) k = Some anchor /\
    off_eq (col_mean [(-9 # 9, 0 # 9); (0 # 9, 0 # 9); (36 # 9, 0 # 9)])
           (off_sub (0, 0) anchor).
Proof.
  split; [reflexivity|].
  apply (normalise_offsets_mean [(0, 0); (1, 0); (5, 0)]). reflexivity.
Defined.

(** Offsets (0,0), (1,0), (5,0): the mean is (2,0), the anchor is the
    second frame, and the list that is returned, (-1,0), (0,0), (4,0), has
    mean (1,0). *)
Lemma normalise_offsets_mean_nonzero :
  exists out,
    normalise_offsets [(0, 0); (1, 0); (5, 0)] = Some out /\
    off_eq (col_mean out) (1, 0) /\
    ~ off_eq (col_mean out) (0, 0).
Proof.
  eexists. split; [reflexivity|]. split.
  - split; vm_compute; reflexivity.
  - intros [C _]. vm_compute in C. discriminate.
Qed.

(** ** The monad *)

Lemma bind_ok {A B : Type} (m : M A) (f : A -> M B) (t : list event) (b : B) :
  bind m f = (t, Ok b) ->
  exists t1 a t2, m = (t1, Ok a) /\ f a = (t2, Ok b) /\ t = t1 ++ t2.
Proof.
  unfold bind. destruct m as [t1 [a|e]]; [|discriminate].
  destruct (f a) as [t2 r] eqn:E. intros H. injection H as <- ->.
  exists t1, a, t2. auto.
Qed.

Lemma bind_err_l {A B : Type} (m : M A) (f : A -> M B) (t : list event) (e : error) :
  m = (t, Err e) -> bind m f = (t, Err e).
Proof. intros ->. reflexivity. Qed.

Lemma bind_ok_l {A B : Type} (m : M A) (f : A -> M B) (t : list event) (a : A) :
  m = (t, Ok a) -> bind m f = (t ++ fst (f a), snd (f a)).
Proof. intros ->. unfold bind. destruct (f a); reflexivity. Qed.

Lemma bind_ret_l {A B : Type} (a : A) (f : A -> M B) : bind (ret a) f = f a.
Proof. unfold bind, ret. destruct (f a); reflexivity. Qed.

Lemma bind_assoc {A B C : Type} (m : M A) (f : A -> M B) (g : B -> M C) :
  bind (bind m f) g = bind m (fun a => bind (f a) g).
Proof.
  unfold bind. destruct m as [t1 [a|e]]; [|reflexivity].
  destruct (f a) as [t2 [b|e]]; [|reflexivity].
  destruct (g b) as [t3 r]. now rewrite app_assoc.
Qed.

Lemma bind_ext {A B : Type} (m : M A) (f g : A -> M B) :
  (forall a, f a = g a) -> bind m f = bind m g.
Proof.
  intros H. unfold bind. destruct m as [t [a|e]]; [|reflexivity]. now rewrite H.
Qed.

Lemma lift_ok {A : Type} (o : option A) (e : error) (t : list event) (a : A) :
  lift o e = (t, Ok a) -> o = Some a /\ t = [].
Proof. destruct o; cbn; intros H; inversion H; auto. Qed.

Lemma bind_trace_prefix {A B : Type} (m : M A) (f : A -> M B) :
  exists t', fst (bind m f) = fst m ++ t'.
Proof.
  unfold bind. destruct m as [t1 [a|e]]; cbn.
  - destruct (f a) as [t2 r]. cbn. eauto.
  - exists []. now rewrite app_nil_r.
Qed.

(** Inversion of a successful [bind] in a hypothesis. *)
Ltac bind_inv H :=
  let t1 := fresh "t" in
  let a := fresh "a" in
  let t2 := fresh "t" in
  let H1 := fresh "Hm" in
  let Ht := fresh "Ht" in
  apply bind_ok in H; destruct H as (t1 & a & t2 & H1 & H & Ht).

Ltac lift_inv H :=
  let Ht := fresh "Ht" in
  apply lift_ok in H; destruct H as [H Ht].

(** ** Offset estimator *)

Section Estimator.

Variable X : Collaborators.
Variable p : Params.
Variable rfile : Rfile.

Lemma est_loop_app (pre post : list MCCD) (nf : nat) (st : est_state) :
  est_loop X p rfile nf (pre ++ post) st =
  bind (est_loop X p rfile nf pre st)
       (fun st' => est_loop X p rfile (nf + length pre) post st').
Proof.
  revert nf st. induction pre as [|f pre IH]; intros nf st.
  - cbn [app est_loop length]. now rewrite bind_ret_l, Nat.add_0_r.
  - cbn [app est_loop length]. rewrite bind_assoc. apply bind_ext. intros st'.
    now rewrite IH, Nat.add_succ_r.
Qed.

Lemma est_step_ref_no_data (nf : nat) (mccd : MCCD) (ccd : CCD) (st : est_state) :
  lookup (ref_cnam p) (ccds mccd) = Some ccd ->
  is_data ccd = false ->
  any_data mccd = true ->
  est_step X p rfile nf mccd st = ([], Err (ErrRefNoData (nf + first p) (ref_cnam p))).
Proof.
  intros Hl Hd Ha. unfold est_step. rewrite Hl. cbn [lift]. rewrite bind_ret_l.
  now rewrite Hd, Ha.
Qed.

Lemma est_step_all_empty (nf : nat) (mccd : MCCD) (ccd : CCD) (st : est_state) :
  lookup (ref_cnam p) (ccds mccd) = Some ccd ->
  is_data ccd = false ->
  any_data mccd = false ->
  est_step X p rfile nf mccd st = ([], Ok st).
Proof.
  intros Hl Hd Ha. unfold est_step. rewrite Hl. cbn [lift]. rewrite bind_ret_l.
  now rewrite Hd, Ha.
Qed.

Lemma est_step_ok (nf : nat) (mccd : MCCD) (st st' : est_state) (t : list event) :
  est_step X p rfile nf mccd st = (t, Ok st') ->
  (recorded (ref_cnam p) mccd = false /\ any_data mccd = false /\ st' = st /\ t = []) \/
  (recorded (ref_cnam p) mccd = true /\
   exists mjd fw o,
     MJDUTC (head mccd) = Some mjd /\
     mjds st' = mjds st ++ [mjd] /\
     fwhm_values st' = fwhm_values st ++ [fw] /\
     offsets st' = offsets st ++ [o]).
Proof.
  unfold est_step, recorded. intros H.
  bind_inv H. lift_inv Hm. rewrite Hm.
  destruct (is_data a) eqn:Hd; cbn [negb] in H.
  - right. split; [reflexivity|].
    bind_inv H. bind_inv H. bind_inv H. bind_inv H. bind_inv H. bind_inv H. bind_inv H.
    lift_inv Hm3. injection H as <- <-. cbn [mjds fwhm_values offsets]. eauto 8.
  - left. destruct (any_data mccd); cbn [negb] in H; [discriminate|].
    injection H as <- <-. subst. auto.
Qed.

Lemma est_loop_mjds (frames : list MCCD) (nf : nat) (st st' : est_state) (t : list event) :
  est_loop X p rfile nf frames st = (t, Ok st') ->
  mjds st' = mjds st ++ recorded_mjds (ref_cnam p) frames.
Proof.
  revert nf st t. induction frames as [|f frames IH]; intros nf st t H.
  - cbn in H. injection H as <- <-. cbn. now rewrite app_nil_r.
  - cbn [est_loop] in H. bind_inv H. apply IH in H. rewrite H.
    cbn [recorded_mjds flat_map]. fold (recorded_mjds (ref_cnam p) frames).
    apply est_step_ok in Hm.
    destruct Hm as [(Hr & _ & -> & _) | (Hr & mjd & fw & o & Hj & -> & _)]; rewrite Hr.
    + reflexivity.
    + rewrite Hj. now rewrite <- app_assoc.
Qed.

(** The estimator appends one offset and one FWHM per recorded frame, so
    the entry of a frame sits at the number of recorded frames before it:
    at the frame's own index only when no earlier frame was skipped. *)
Lemma est_loop_lengths (frames : list MCCD) (nf : nat) (st st' : est_state)
  (t : list event) :
  est_loop X p rfile nf frames st = (t, Ok st') ->
  length (offsets st') = (length (offsets st) + count_recorded (ref_cnam p) frames)%nat /\
  length (fwhm_values st')
    = (length (fwhm_values st) + count_recorded (ref_cnam p) frames)%nat.
Proof.
  revert nf st t. induction frames as [|f frames IH]; intros nf st t H.
  - cbn in H. injection H as <- <-. cbn. lia.
  - cbn [est_loop] in H. bind_inv H. apply IH in H. destruct H as [H1 H2].
    unfold count_recorded in *. cbn [filter].
    apply est_step_ok in Hm.
    destruct Hm as [(Hr & _ & -> & _) | (Hr & mjd & fw & o & _ & _ & Hf & Ho)];
      rewrite Hr.
    + auto.
    + rewrite Hf, Ho, !length_app in *. cbn [length] in *. lia.
Qed.

Lemma est_loop_aligned (frames : list MCCD) (st : est_state) (t : list event) :
  estimate_offsets X p rfile frames = (t, Ok st) ->
  forallb (recorded (ref_cnam p)) frames = true ->
  length (offsets st) = length frames /\ length (fwhm_values st) = length frames.
Proof.
  intros H Hall. apply est_loop_lengths in H. cbn in H.
  assert (E : count_recorded (ref_cnam p) frames = length frames).
  { unfold count_recorded. clear H. induction frames as [|f l IH]; [reflexivity|].
    cbn in Hall |- *. apply andb_prop in Hall. destruct Hall as [-> Hl].
    cbn. now rewrite IH. }
  now rewrite E in H.
Qed.

End Estimator.

Section EstimatorClaims.

Variable X : Collaborators.
Variable p : Params.
Variable rfile : Rfile.

(** C2, as the program has it.  A frame without data in the reference CCD
    but with data in another CCD is fatal: once the frames before it have
    been fitted, the estimator, and with it the run, stops with the error
    that names the frame and the reference CCD.  A frame is skipped, with
    nothing recorded for it, only when no CCD has data in it. *)
Theorem ref_no_data_is_fatal (pre post : list MCCD) (mccd : MCCD) (ccd : CCD)
  (t : list event) (st : est_state)
  (Hpre : estimate_offsets X p rfile pre = (t, Ok st))
  (Hl : lookup (ref_cnam p) (ccds mccd) = Some ccd)
  (Hd : is_data ccd = false) :
  (any_data mccd = true ->
   estimate_offsets X p rfile (pre ++ mccd :: post)
     = (t, Err (ErrRefNoData (length pre + first p) (ref_cnam p))) /\
   shiftadd X p rfile (pre ++ mccd :: post)
     = (t, Err (ErrRefNoData (length pre + first p) (ref_cnam p)))) /\
  (any_data mccd = false ->
   estimate_offsets X p rfile (pre ++ [mccd]) = (t, Ok st)).
Proof.
  unfold estimate_offsets in *. split; intros Ha.
  - assert (E : est_loop X p rfile 0 (pre ++ mccd :: post) est_init
                = (t, Err (ErrRefNoData (length pre + first p) (ref_cnam p)))).
    { rewrite est_loop_app, (bind_ok_l _ _ _ _ Hpre). cbn [est_loop plus].
      rewrite (est_step_ref_no_data X p rfile _ _ _ _ Hl Hd Ha).
      cbn. now rewrite app_nil_r. }
    split; [exact E|]. unfold shiftadd, estimate_offsets. now rewrite E.
  - rewrite est_loop_app, (bind_ok_l _ _ _ _ Hpre). cbn [est_loop plus].
    rewrite (est_step_all_empty X p rfile _ _ _ _ Hl Hd Ha).
    cbn. now rewrite app_nil_r.
Qed.

(** C10.  When the run succeeds, the MJDUTC it writes is the minimum plus
    half the span of the time stamps of all the frames the estimator
    recorded, that is of every frame with data in the reference CCD; the
    FWHM threshold plays no part in it. *)
Theorem mid_time_over_recorded_frames (frames : list MCCD) (t : list event)
  (out : Output) (H : shiftadd X p rfile frames = (t, Ok out)) :
  exists lo hi,
    list_min (recorded_mjds (ref_cnam p) frames) = Some lo /\
    list_max (recorded_mjds (ref_cnam p) frames) = Some hi /\
    out_mjdutc out = lo + (1 # 2) * (hi - lo).
Proof.
  unfold shiftadd, estimate_offsets in H.
  bind_inv H. apply est_loop_mjds in Hm. cbn in Hm.
  bind_inv H. bind_inv H. bind_inv H. bind_inv H. bind_inv H.
  lift_inv Hm4. injection H as <- <-. cbn [out_mjdutc].
  rewrite Hm in Hm4. unfold mid_time in Hm4.
  destruct (list_min _) as [lo|]; [|discriminate].
  destruct (list_max _) as [hi|]; [|discriminate].
  injection Hm4 as <-. eauto.
Qed.

End EstimatorClaims.

Lemma ref_no_data_is_fatal_witness :
  (any_data (toy_frame false true 0 0 2 10) = true ->
   estimate_offsets toy (toy_params (-1) Adaptive) toy_rfile
       ([] ++ toy_frame false true 0 0 2 10 :: [])
     = ([], Err (ErrRefNoData (0 + 1) "1")) /\
   shiftadd toy (toy_params (-1) Adaptive) toy_rfile
       ([] ++ toy_frame false true 0 0 2 10 :: [])
     = ([], Err (ErrRefNoData (0 + 1) "1"))) /\
  (any_data (toy_frame false true 0 0 2 10) = false ->
   estimate_offsets toy (toy_params (-1) Adaptive) toy_rfile
       ([] ++ [toy_frame false true 0 0 2 10])
     = ([], Ok est_init)).
Proof.
  apply (ref_no_data_is_fatal toy (toy_params (-1) Adaptive) toy_rfile
           [] [] (toy_frame false true 0 0 2 10) (toy_ccd false [("W"%string, toy_window 0 0 2)])
           [] est_init); reflexivity.
Defined.

(** One frame, no data in the reference CCD "1", data in CCD "2": the
    estimator does not skip it, it raises. *)
Lemma ref_no_data_not_skipped :
  recorded "1" (toy_frame false true 0 0 2 10) = false /\
  any_data (toy_frame false true 0 0 2 10) = true /\
  estimate_offsets toy (toy_params (-1) Adaptive) toy_rfile
      [toy_frame false true 0 0 2 10]
    = ([], Err (ErrRefNoData 1 "1")) /\
  forall t st,
    estimate_offsets toy (toy_params (-1) Adaptive) toy_rfile
      [toy_frame false true 0 0 2 10] <> (t, Ok st).
Proof.
  repeat split; try reflexivity. intros t st. vm_compute. discriminate.
Qed.

(** Three frames, threshold 5: the second frame has FWHM 9 and is left out
    of the stacks (two frames are counted for each CCD), yet its time
    stamp, 30, is the maximum that sets the midpoint 20. *)
Lemma mid_time_over_recorded_frames_witness :
  exists t out,
    shiftadd toy (toy_params 5 Interp) toy_rfile toy_three_frames = (t, Ok out) /\
    out_nframes out = [("1"%string, 2%nat); ("2"%string, 2%nat)] /\
    out_mjdutc out == 20 /\
    exists lo hi,
      list_min (recorded_mjds "1" toy_three_frames) = Some lo /\
      list_max (recorded_mjds "1" toy_three_frames) = Some hi /\
      out_mjdutc out = lo + (1 # 2) * (hi - lo).
Proof.
  eexists. eexists. split; [vm_compute; reflexivity|].
  split; [reflexivity|]. split; [reflexivity|].
  apply (mid_time_over_recorded_frames toy (toy_params 5 Interp) toy_rfile
           toy_three_frames _ _ eq_refl).
Defined.

(** ** Frame resampler *)

Lemma mapM_length {A B : Type} (f : A -> M B) (l : list A) (t : list event) (ys : list B) :
  mapM f l = (t, Ok ys) -> length ys = length l.
Proof.
  revert t ys. induction l as [|x l IH]; intros t ys H; cbn in H.
  - injection H as <- <-. reflexivity.
  - bind_inv H. bind_inv H. injection H as <- <-. cbn. f_equal. eauto.
Qed.

Lemma mapM_app_err {A B : Type} (f : A -> M B) (pre post : list A) (x : A)
  (t : list event) (ys : list B) (e : error) :
  mapM f pre = (t, Ok ys) ->
  f x = ([], Err e) ->
  mapM f (pre ++ x :: post) = (t, Err e).
Proof.
  revert t ys. induction pre as [|a pre IH]; intros t ys Hpre Hx.
  - cbn in Hpre. injection Hpre as <- <-. cbn. now rewrite Hx.
  - cbn [app mapM] in *. bind_inv Hpre. bind_inv Hpre. injection Hpre as <- <-.
    rewrite (IH _ _ Hm0 Hx).
    rewrite (bind_ok_l _ _ _ _ Hm). cbn. subst. now rewrite app_nil_r.
Qed.

Section Resampler.

Variable X : Collaborators.
Variable p : Params.
Variable fwhms : list Q.
Variable offs : list offset.
Variable orig_wcs : WCS.
Variable cnam : string.

Lemma fwhm_too_large_ok (nf : nat) (t : list event) (b : bool) :
  fwhm_too_large p fwhms nf = (t, Ok b) ->
  t = [] /\
  b = negb (Qle_bool (fthresh p) 0) &&
      match nth_error fwhms nf with
      | Some v => negb (Qle_bool v (fthresh p))
      | None => false
      end.
Proof.
  unfold fwhm_too_large. destruct (Qle_bool (fthresh p) 0); cbn [negb andb].
  - intros H. injection H as <- <-. auto.
  - intros H. bind_inv H. lift_inv Hm. rewrite Hm. injection H as <- <-.
    subst. auto.
Qed.

Lemma stack_step_ok (nf : nat) (ccd : CCD) (st st' : stack_state) (t : list event) :
  stack_step X p fwhms offs orig_wcs cnam nf ccd st = (t, Ok st') ->
  (survives p fwhms nf ccd = false /\ st' = st /\ t = []) \/
  (survives p fwhms nf ccd = true /\
   exists frame_offset layers,
     nth_error offs nf = Some frame_offset /\
     length layers = length (winds ccd) /\
     st' = mkStack (arrs st ++ layers) (S (nframes_used st))).
Proof.
  unfold stack_step, survives. destruct (is_data ccd); cbn [negb andb].
  - intros H. bind_inv H. apply fwhm_too_large_ok in Hm. destruct Hm as [-> Hb].
    rewrite <- Hb. destruct a.
    + injection H as <- <-. left. subst. auto.
    + right. split; [reflexivity|]. bind_inv H. lift_inv Hm. bind_inv H.
      injection H as <- <-. apply mapM_length in Hm0. eauto.
  - intros H. injection H as <- <-. auto.
Qed.

Lemma stack_loop_counts (frames : list MCCD) (nf : nat) (st st' : stack_state)
  (t : list event) :
  stack_loop X p fwhms offs orig_wcs cnam nf frames st = (t, Ok st') ->
  nframes_used st' = (nframes_used st + used_frames p fwhms cnam nf frames)%nat /\
  length (arrs st') = (length (arrs st) + used_windows p fwhms cnam nf frames)%nat.
Proof.
  revert nf st t. induction frames as [|f frames IH]; intros nf st t H.
  - cbn in H. injection H as <- <-. cbn. lia.
  - cbn [stack_loop] in H. bind_inv H. lift_inv Hm. bind_inv H.
    apply IH in H. destruct H as [H1 H2].
    unfold used_frames, used_windows in *. cbn [sum_used]. rewrite Hm.
    apply stack_step_ok in Hm0.
    destruct Hm0 as [(Hs & -> & _) | (Hs & o & layers & _ & Hlen & ->)]; rewrite Hs.
    + lia.
    + cbn [nframes_used arrs] in *. rewrite length_app in H2. lia.
Qed.

Lemma sum_used_uniform (w : nat) (frames : list MCCD) (nf : nat) :
  (forall mccd ccd, In mccd frames -> lookup cnam (ccds mccd) = Some ccd ->
                    length (winds ccd) = w) ->
  used_windows p fwhms cnam nf frames = (used_frames p fwhms cnam nf frames * w)%nat.
Proof.
  revert nf. induction frames as [|f frames IH]; intros nf Hw; [reflexivity|].
  unfold used_frames, used_windows in *. cbn [sum_used].
  rewrite IH by (intros; eapply Hw; [right|]; eassumption).
  destruct (lookup cnam (ccds f)) as [ccd|] eqn:E; [|lia].
  destruct (survives p fwhms nf ccd); [|lia].
  rewrite (Hw f ccd (or_introl eq_refl) E). lia.
Qed.

(** C3, as the program has it.  A layer is appended for every window of
    every frame that survives the skip logic: the frame counter is the
    number of used frames, and the stack holds as many layers as these
    frames have windows, that is the number of used frames times the
    number of windows when all the frames have the same [w] windows. *)
Theorem stack_has_one_layer_per_window (frames : list MCCD) (st : stack_state)
  (t : list event)
  (H : stack_loop X p fwhms offs orig_wcs cnam 0 frames stack_init = (t, Ok st)) :
  nframes_used st = used_frames p fwhms cnam 0 frames /\
  length (arrs st) = used_windows p fwhms cnam 0 frames /\
  forall w,
    (forall mccd ccd, In mccd frames -> lookup cnam (ccds mccd) = Some ccd ->
                      length (winds ccd) = w) ->
    length (arrs st) = (nframes_used st * w)%nat.
Proof.
  apply stack_loop_counts in H. cbn in H. destruct H as [H1 H2].
  split; [exact H1|]. split; [exact H2|].
  intros w Hw. rewrite H2, H1. now apply sum_used_uniform.
Qed.

Lemma Qle_bool_false (a b : Q) : b < a -> Qle_bool a b = false.
Proof.
  intros H. destruct (Qle_bool a b) eqn:E; [|reflexivity].
  apply Qle_bool_iff in E. lra.
Qed.

Lemma stack_loop_all_skipped (frames : list MCCD) (nf : nat) (st : stack_state) :
  all_skipped p fwhms cnam nf frames ->
  stack_loop X p fwhms offs orig_wcs cnam nf frames st = ([], Ok st).
Proof.
  revert nf. induction frames as [|f frames IH]; intros nf Hs; [reflexivity|].
  cbn [stack_loop].
  destruct (Hs 0%nat f eq_refl) as (ccd & Hl & Hc). rewrite Hl. cbn [lift].
  rewrite bind_ret_l.
  assert (E : stack_step X p fwhms offs orig_wcs cnam nf ccd st = ret st).
  { unfold stack_step. destruct Hc as [Hd | (Hpos & v & Hv & Hgt)].
    - now rewrite Hd.
    - destruct (is_data ccd); [|reflexivity]. cbn [negb].
      unfold fwhm_too_large. rewrite (Qle_bool_false _ _ Hpos). cbn [negb].
      rewrite Nat.add_0_r in Hv. rewrite Hv. cbn [lift]. rewrite bind_ret_l.
      rewrite (Qle_bool_false _ _ Hgt). cbn [negb]. now rewrite bind_ret_l. }
  rewrite E, bind_ret_l. apply IH.
  intros k mccd Hk. destruct (Hs (S k) mccd Hk) as (c & ? & Hc').
  exists c. split; [assumption|]. now rewrite Nat.add_succ_r in Hc'.
Qed.

End Resampler.

Lemma choose_wcs_trace (X : Collaborators) (p : Params) (m : MCCD) :
  fst (choose_wcs X p m) = [].
Proof.
  unfold choose_wcs. destruct (wcs_from_header X m); [reflexivity|].
  destruct (reprmethod p); reflexivity.
Qed.

Section ResamplerClaims.

Variable X : Collaborators.
Variable p : Params.
Variable rfile : Rfile.

Lemma process_ccd_all_skipped (fwhms : list Q) (offs : list offset) (w : WCS)
  (frames : list MCCD) (cnam : string) (c : CCD) :
  all_skipped p fwhms cnam 0 frames ->
  process_ccd X p fwhms offs w frames (cnam, c) = ([], Err (ErrNoData cnam)).
Proof.
  intros Hs. unfold process_ccd.
  rewrite (stack_loop_all_skipped X p fwhms offs w cnam frames 0 stack_init Hs).
  reflexivity.
Qed.

(** C8.  When every frame is skipped for a CCD (no data in it, or FWHM
    above a positive threshold), processing that CCD makes no call to the
    reprojection or to the combination and raises the error that names the
    CCD; the run, having come as far as this CCD, ends with that error and
    with the trace it had before. *)
Theorem no_surviving_frame_is_fatal (frames : list MCCD) (t0 tw t1 : list event)
  (est : est_state) (offs : list offset) (output_mccd : MCCD) (w : WCS)
  (pre post : list (string * CCD)) (cnam : string) (c : CCD)
  (done : list (string * CCD * nat))
  (Hest : estimate_offsets X p rfile frames = (t0, Ok est))
  (Hnorm : normalise_offsets (offsets est) = Some offs)
  (Hhd : hd_error frames = Some output_mccd)
  (Hwcs : choose_wcs X p output_mccd = (tw, Ok w))
  (Hccds : ccds output_mccd = pre ++ (cnam, c) :: post)
  (Hpre : mapM (process_ccd X p (fwhm_values est) offs w frames) pre = (t1, Ok done))
  (Hskip : all_skipped p (fwhm_values est) cnam 0 frames) :
  process_ccd X p (fwhm_values est) offs w frames (cnam, c)
    = ([], Err (ErrNoData cnam)) /\
  shiftadd X p rfile frames = (t0 ++ t1, Err (ErrNoData cnam)).
Proof.
  pose proof (process_ccd_all_skipped (fwhm_values est) offs w frames cnam c Hskip) as Hc.
  split; [exact Hc|].
  assert (tw = []) as -> by (pose proof (choose_wcs_trace X p output_mccd) as E;
                             now rewrite Hwcs in E).
  unfold shiftadd. rewrite (bind_ok_l _ _ _ _ Hest).
  rewrite Hnorm, Hhd. cbn [lift]. rewrite !bind_ret_l.
  change (@nil event, Ok w) with (ret w) in Hwcs. rewrite Hwcs, bind_ret_l.
  rewrite Hccds, (mapM_app_err _ _ _ _ _ _ _ Hpre Hc). reflexivity.
Qed.

End ResamplerClaims.

Lemma stack_has_one_layer_per_window_witness :
  exists t st,
    stack_loop toy (toy_params (-1) Adaptive) [2] [(0, 0)] basic_wcs "1" 0
               [toy_two_window_frame] stack_init = (t, Ok st) /\
    nframes_used st
      = used_frames (toy_params (-1) Adaptive) [2] "1" 0 [toy_two_window_frame] /\
    length (arrs st)
      = used_windows (toy_params (-1) Adaptive) [2] "1" 0 [toy_two_window_frame] /\
    forall w,
      (forall mccd ccd, In mccd [toy_two_window_frame] ->
                        lookup "1" (ccds mccd) = Some ccd ->
                        length (winds ccd) = w) ->
      length (arrs st) = (nframes_used st * w)%nat.
Proof.
  eexists. eexists. split; [vm_compute; reflexivity|].
  apply (stack_has_one_layer_per_window toy (toy_params (-1) Adaptive) [2] [(0, 0)]
           basic_wcs "1" [toy_two_window_frame] _ _ eq_refl).
Defined.

(** One used frame whose CCD has two windows: the counter says one frame,
    the stack has two layers, and the combination is called on two layers
    while the history records one frame. *)
Lemma two_windows_give_two_layers :
  (exists t st,
     stack_loop toy (toy_params (-1) Adaptive) [2] [(0, 0)] basic_wcs "1" 0
                [toy_two_window_frame] stack_init = (t, Ok st) /\
     nframes_used st = 1%nat /\
     length (arrs st) = 2%nat /\
     length (arrs st) <> nframes_used st) /\
  (exists t out,
     shiftadd toy (toy_params (-1) Adaptive) toy_rfile [toy_two_window_frame]
       = (t, Ok out) /\
     In (EvCombine "1" 2) t /\
     out_nframes out = [("1"%string, 1%nat)]).
Proof.
  split.
  - eexists. eexists. split; [vm_compute; reflexivity|].
    cbn. repeat split; try reflexivity. discriminate.
  - eexists. eexists. split; [vm_compute; reflexivity|].
    split; [|reflexivity]. cbn. auto 10.
Qed.

Lemma toy_dead_ccd_all_skipped (fwhms : list Q) :
  all_skipped (toy_params (-1) Adaptive) fwhms "2" 0 toy_dead_ccd_frames.
Proof.
  intros k mccd Hk.
  destruct k as [|[|k]]; cbn in Hk; [| |destruct k; discriminate];
    injection Hk as <-; eexists; (split; [reflexivity | left; reflexivity]).
Defined.

(** CCD "2" has no data in any frame: CCD "1" is stacked, then the run
    stops on CCD "2". *)
Lemma no_surviving_frame_is_fatal_witness :
  exists t0 t1 est offs w done,
    estimate_offsets toy (toy_params (-1) Adaptive) toy_rfile toy_dead_ccd_frames
      = (t0, Ok est) /\
    normalise_offsets (offsets est) = Some offs /\
    choose_wcs toy (toy_params (-1) Adaptive) (toy_frame true false 0 0 2 10)
      = ([], Ok w) /\
    mapM (process_ccd toy (toy_params (-1) Adaptive) (fwhm_values est) offs w
                      toy_dead_ccd_frames)
         [("1"%string, toy_ccd true [("W"%string, toy_window 0 0 2)])]
      = (t1, Ok done) /\
    all_skipped (toy_params (-1) Adaptive) (fwhm_values est) "2" 0 toy_dead_ccd_frames /\
    process_ccd toy (toy_params (-1) Adaptive) (fwhm_values est) offs w
                toy_dead_ccd_frames
                ("2"%string, toy_ccd false [("W"%string, toy_window 0 0 2)])
      = ([], Err (ErrNoData "2")) /\
    shiftadd toy (toy_params (-1) Adaptive) toy_rfile toy_dead_ccd_frames
      = (t0 ++ t1, Err (ErrNoData "2")).
Proof.
  do 6 eexists.
  split; [vm_compute; reflexivity|].
  split; [vm_compute; reflexivity|].
  split; [vm_compute; reflexivity|].
  split; [vm_compute; reflexivity|].
  split; [apply toy_dead_ccd_all_skipped|].
  apply (no_surviving_frame_is_fatal toy (toy_params (-1) Adaptive) toy_rfile
            toy_dead_ccd_frames _ [] _ _ _ (toy_frame true false 0 0 2 10) _
            [("1"%string, toy_ccd true [("W"%string, toy_window 0 0 2)])] []
            "2" (toy_ccd false [("W"%string, toy_window 0 0 2)]) _
            eq_refl eq_refl eq_refl eq_refl eq_refl eq_refl
            (toy_dead_ccd_all_skipped _)).
Defined.

(** ** Masking *)

Lemma nth_error_imap_from {A B : Type} (f : Z -> A -> B) (l : list A) (i : Z) (k : nat) :
  nth_error (imap_from f i l) k = option_map (f (i + Z.of_nat k)%Z) (nth_error l k).
Proof.
  revert i k. induction l as [|x l IH]; intros i [|k]; cbn [imap_from nth_error option_map];
    try reflexivity.
  - now rewrite Z.add_0_r.
  - rewrite IH. do 2 f_equal. lia.
Qed.

Lemma in_slice_sound (n a b i : Z) :
  (0 <= n)%Z -> (0 <= b)%Z -> (0 <= i)%Z ->
  in_slice n a b i = true -> (a <= i < b)%Z.
Proof.
  intros Hn Hb Hi H. unfold in_slice, slice_index in H.
  apply andb_prop in H. destruct H as [H1 H2].
  apply Z.leb_le in H1. apply Z.ltb_lt in H2.
  destruct (Z.ltb_spec a 0), (Z.ltb_spec b 0); lia.
Qed.

(** When the stop bounds of both slices are not negative, a cell that the
    mask keeps lies in the index ranges [ya, yb) and [xa, xb). *)
Lemma mask_outside_sound (g : grid) (ya yb xa xb : Z) (r c : nat) (px : pixel) :
  (0 <= yb)%Z -> (0 <= xb)%Z ->
  grid_get (mask_outside g ya yb xa xb) r c = Some px ->
  px <> NaN ->
  (ya <= Z.of_nat r < yb)%Z /\ (xa <= Z.of_nat c < xb)%Z.
Proof.
  intros Hy Hx Hg Hpx. unfold grid_get, mask_outside in Hg.
  rewrite nth_error_imap_from in Hg.
  destruct (nth_error g r) as [row|]; [|discriminate]. cbn [option_map] in Hg.
  rewrite nth_error_imap_from in Hg.
  destruct (nth_error row c) as [q|]; [|discriminate]. cbn [option_map] in Hg.
  rewrite !Z.add_0_l in Hg.
  destruct (in_slice _ ya yb _) eqn:E1; cbn [andb] in Hg; [|congruence].
  destruct (in_slice _ xa xb _) eqn:E2; [|congruence].
  split.
  - apply (in_slice_sound (Z.of_nat (length g)) ya yb (Z.of_nat r));
      [lia | assumption | lia | exact E1].
  - apply (in_slice_sound (Z.of_nat (length (hd [] g))) xa xb (Z.of_nat c));
      [lia | assumption | lia | exact E2].
Qed.

Lemma resample_window_masks (X : Collaborators) (p : Params) (w : WCS) (shape : Z * Z)
  (cnam : string) (nf : nat) (off : offset) (wnam : string) (wind : Window)
  (r c : nat) (px : pixel) :
  (0 <= lly wind / ybin wind + ny wind - py_int (snd off))%Z ->
  (0 <= llx wind / xbin wind + nx wind - py_int (fst off))%Z ->
  (exists t layer,
     resample_window X p w shape cnam nf off (wnam, wind) = (t, Ok layer) /\
     (grid_get layer r c = Some px ->
      in_footprint wind off (Z.of_nat r) (Z.of_nat c) = false ->
      px = NaN)).
Proof.
  intros Hy Hx. unfold resample_window. destruct off as [ox oy].
  destruct (crpix w) as [c1 c2]. cbn [fst snd] in *.
  eexists. eexists. split; [reflexivity|].
  intros Hg Hf. destruct px as [|v]; [reflexivity|]. exfalso.
  apply mask_outside_sound in Hg; [|assumption|assumption|discriminate].
  unfold in_footprint in Hf. cbn [fst snd] in Hf.
  destruct Hg as [[A B] [C D]].
  apply Z.leb_le in A, C. apply Z.ltb_lt in B, D. now rewrite A, B, C, D in Hf.
Qed.

(** C5 at a failing input.  A window two columns wide at the left edge of
    a grid of six columns, drifted by 5 pixels: its footprint, columns -5
    and -4, is off the grid, so every cell of the grid is outside it.  The
    slice [-5:-3] counts from the right end and the mask keeps columns 1
    and 2, which hold what the kernel put there. *)
Lemma mask_wraps_on_negative_bounds :
  exists t layer,
    resample_window toy (toy_params (-1) Adaptive) basic_wcs (1, 6)%Z "1" 0 (5, 0)
                    ("W"%string, toy_edge_window) = (t, Ok layer) /\
    layer = [[NaN; Val 7; Val 7; NaN; NaN; NaN]] /\
    (forall c, in_footprint toy_edge_window (5, 0) 0 (Z.of_nat c) = false) /\
    grid_get layer 0 1 = Some (Val 7).
Proof.
  eexists. eexists. split; [vm_compute; reflexivity|].
  split; [reflexivity|]. split; [|reflexivity].
  intros c. unfold in_footprint. cbn.
  destruct (Z.ltb_spec (Z.of_nat c) (-3)); [lia|]. now rewrite andb_false_r.
Qed.

(** ** The coordinate system *)

Lemma est_step_no_reproject (X : Collaborators) (p : Params) (rfile : Rfile)
  (nf : nat) (mccd : MCCD) (st : est_state) :
  exists r, est_step X p rfile nf mccd st = ([], r) \/
            est_step X p rfile nf mccd st = ([EvMoveApers (nf + first p)], r).
Proof.
  unfold est_step.
  destruct (lookup (ref_cnam p) (ccds mccd)) as [ccd|]; cbn [lift];
    [rewrite bind_ret_l | eexists; left; reflexivity].
  destruct (is_data ccd); cbn [negb].
  2:{ destruct (any_data mccd); eexists; left; reflexivity. }
  destruct (lookup (ref_cnam p) (aper rfile)) as [apers|]; cbn [lift];
    [rewrite bind_ret_l | eexists; left; reflexivity].
  unfold emit.
  match goal with |- exists r, bind _ ?f = _ \/ _ => set (k := f) end.
  assert (Ht : fst (k tt) = []).
  { unfold k.
    destruct (moveApers X _ _ _ _) as [store|]; cbn [lift];
      [rewrite bind_ret_l | reflexivity].
    destruct (MJDUTC (head mccd)) as [mjd|]; cbn [lift];
      [rewrite bind_ret_l | reflexivity].
    assert (Hs : fst (ref_shifts store apers) = []).
    { unfold ref_shifts. induction (filter _ apers) as [|a l IH]; [reflexivity|].
      cbn [mapM]. destruct (lookup (fst a) (shifts store)); cbn [lift];
        [rewrite bind_ret_l | reflexivity].
      destruct (mapM _ l) as [tl [ys|e]]; cbn in IH |- *; now subst. }
    destruct (ref_shifts store apers) as [ts [sh|e]]; cbn in Hs; subst ts;
      [|reflexivity].
    change (@nil event, Ok sh) with (ret sh). rewrite bind_ret_l.
    unfold np_mean.
    destruct (map dx sh); [reflexivity|]. rewrite bind_ret_l.
    destruct (map dy sh); [reflexivity|]. rewrite bind_ret_l.
    reflexivity. }
  destruct (k tt) as [t r] eqn:E. cbn in Ht. subst t.
  exists r. right. unfold bind. now rewrite E.
Qed.

Lemma est_loop_no_reproject (X : Collaborators) (p : Params) (rfile : Rfile)
  (frames : list MCCD) (nf : nat) (st : est_state) :
  forall ev, In ev (fst (est_loop X p rfile nf frames st)) -> is_reproject ev = false.
Proof.
  revert nf st. induction frames as [|f frames IH]; intros nf st ev; [intros []|].
  cbn [est_loop].
  destruct (est_step_no_reproject X p rfile nf f st) as [r [E|E]]; rewrite E;
    destruct r as [st'|e]; cbn [bind fst].
  - specialize (IH (S nf) st' ev). destruct (est_loop X p rfile (S nf) frames st').
    cbn in *. exact IH.
  - intros [].
  - specialize (IH (S nf) st' ev). destruct (est_loop X p rfile (S nf) frames st').
    cbn in *. intros [<-|H]; [reflexivity | auto].
  - cbn. intros [<-|[]]. reflexivity.
Qed.

Section WcsClaims.

Variable X : Collaborators.
Variable p : Params.
Variable rfile : Rfile.

(** C7.  The header of the first frame gives no celestial WCS.  With the
    method 'exact' the step raises the configuration error, and the run
    ends in an error without a single call to the reprojection: in that
    very error as soon as the offsets were estimated and normalised.  With
    any other method the step succeeds with the basic WCS. *)
Theorem exact_needs_celestial_wcs (frames : list MCCD) (output_mccd : MCCD)
  (Hhd : hd_error frames = Some output_mccd)
  (Hnone : wcs_from_header X output_mccd = None) :
  (reprmethod p = Exact ->
   choose_wcs X p output_mccd = ([], Err ErrWcsExact) /\
   (exists e, snd (shiftadd X p rfile frames) = Err e) /\
   (forall ev, In ev (fst (shiftadd X p rfile frames)) -> is_reproject ev = false) /\
   (forall t est offs,
      estimate_offsets X p rfile frames = (t, Ok est) ->
      normalise_offsets (offsets est) = Some offs ->
      shiftadd X p rfile frames = (t, Err ErrWcsExact))) /\
  (reprmethod p <> Exact ->
   choose_wcs X p output_mccd = ([], Ok basic_wcs)).
Proof.
  split.
  - intros Hm.
    assert (Hc : choose_wcs X p output_mccd = ([], Err ErrWcsExact)).
    { unfold choose_wcs. now rewrite Hnone, Hm. }
    split; [exact Hc|].
    pose proof (est_loop_no_reproject X p rfile frames 0 est_init) as Hev.
    fold (estimate_offsets X p rfile frames) in Hev.
    destruct (estimate_offsets X p rfile frames) as [t [est|e]] eqn:E; cbn [fst] in Hev.
    + destruct (normalise_offsets (offsets est)) as [offs|] eqn:N.
      * assert (S : shiftadd X p rfile frames = (t, Err ErrWcsExact)).
        { unfold shiftadd. rewrite (bind_ok_l _ _ _ _ E). cbn beta.
          rewrite N, Hhd. cbn [lift]. rewrite !bind_ret_l, Hc.
          cbn [bind fst snd]. now rewrite app_nil_r. }
        rewrite S. cbn [fst snd]. split; [eauto|]. split; [exact Hev|].
        intros t' est' offs' H _. now inversion H.
      * assert (S : shiftadd X p rfile frames = (t, Err ErrNumpy)).
        { unfold shiftadd. rewrite (bind_ok_l _ _ _ _ E). cbn beta.
          rewrite N. cbn [lift raise bind fst snd]. now rewrite app_nil_r. }
        rewrite S. cbn [fst snd]. split; [eauto|]. split; [exact Hev|].
        intros t' est' offs' H N'. inversion H; subst. congruence.
    + assert (S : shiftadd X p rfile frames = (t, Err e)).
      { unfold shiftadd. now rewrite E. }
      rewrite S. cbn [fst snd]. split; [eauto|]. split; [exact Hev|].
      intros t' est' offs' H. discriminate.
  - intros Hm. unfold choose_wcs. rewrite Hnone.
    destruct (reprmethod p); [reflexivity | reflexivity | congruence].
Qed.

End WcsClaims.

(** The toy frames carry no RADEG, DECDEG or INSTRPA. *)
Lemma exact_needs_celestial_wcs_witness :
  hd_error toy_three_frames = Some (toy_frame true true 0 0 2 10) /\
  wcs_from_header toy (toy_frame true true 0 0 2 10) = None /\
  shiftadd toy (toy_params 5 Exact) toy_rfile toy_three_frames
    = ([EvMoveApers 1; EvMoveApers 2; EvMoveApers 3], Err ErrWcsExact) /\
  (reprmethod (toy_params 5 Exact) = Exact ->
   choose_wcs toy (toy_params 5 Exact) (toy_frame true true 0 0 2 10)
     = ([], Err ErrWcsExact) /\
   (exists e, snd (shiftadd toy (toy_params 5 Exact) toy_rfile toy_three_frames) = Err e) /\
   (forall ev, In ev (fst (shiftadd toy (toy_params 5 Exact) toy_rfile toy_three_frames)) ->
               is_reproject ev = false) /\
   (forall t est offs,
      estimate_offsets toy (toy_params 5 Exact) toy_rfile toy_three_frames = (t, Ok est) ->
      normalise_offsets (offsets est) = Some offs ->
      shiftadd toy (toy_params 5 Exact) toy_rfile toy_three_frames
        = (t, Err ErrWcsExact))) /\
  (reprmethod (toy_params 5 Exact) <> Exact ->
   choose_wcs toy (toy_params 5 Exact) (toy_frame true true 0 0 2 10)
     = ([], Ok basic_wcs)).
Proof.
  split; [reflexivity|]. split; [reflexivity|]. split; [vm_compute; reflexivity|].
  apply (exact_needs_celestial_wcs toy (toy_params 5 Exact) toy_rfile
           toy_three_frames (toy_frame true true 0 0 2 10)); reflexivity.
Defined.

(** ** Window reassembler *)

Lemma any_nan_spec (g : grid) :
  any_nan g = true <-> exists r c, grid_get g r c = Some NaN.
Proof.
  unfold any_nan, grid_get. rewrite existsb_exists. split.
  - intros (row & Hin & Hex). apply existsb_exists in Hex.
    destruct Hex as (px & Hpx & Hn). destruct px; [|discriminate].
    apply In_nth_error in Hin. destruct Hin as [r Hr].
    apply In_nth_error in Hpx. destruct Hpx as [c Hc].
    exists r, c. now rewrite Hr.
  - intros (r & c & H). destruct (nth_error g r) as [row|] eqn:Hr; [|discriminate].
    exists row. split; [eapply nth_error_In; eassumption|].
    apply existsb_exists. exists NaN. split; [eapply nth_error_In; eassumption|reflexivity].
Qed.

Lemma reassemble_ok (cnam : string) (stack : grid) (ws : list (string * Window)) :
  crops_defined stack ws ->
  reassemble cnam stack ws = ([], Ok (with_crops stack ws)).
Proof.
  unfold crops_defined. induction ws as [|[wnam wind] ws IH]; intros H; [reflexivity|].
  cbn [reassemble]. pose proof (H (wnam, wind) (or_introl eq_refl)) as H0.
  cbn [snd] in H0. rewrite H0.
  rewrite IH by (intros; apply H; now right). reflexivity.
Qed.

Lemma reassemble_first_nan (cnam : string) (stack : grid)
  (pre post : list (string * Window)) (wnam : string) (wind : Window) :
  crops_defined stack pre ->
  any_nan (window_crop stack wind) = true ->
  reassemble cnam stack (pre ++ (wnam, wind) :: post) = ([], Err (ErrNaNCrop cnam wnam)).
Proof.
  unfold crops_defined. induction pre as [|[n0 w0] pre IH]; intros H Hn.
  - cbn [app reassemble]. now rewrite Hn.
  - cbn [app reassemble]. pose proof (H (n0, w0) (or_introl eq_refl)) as H0.
    cbn [snd] in H0. rewrite H0.
    rewrite IH by (try assumption; intros; apply H; now right). reflexivity.
Qed.

Lemma mapM_app_err_trace {A B : Type} (f : A -> M B) (pre post : list A) (x : A)
  (t tx : list event) (ys : list B) (e : error) :
  mapM f pre = (t, Ok ys) ->
  f x = (tx, Err e) ->
  mapM f (pre ++ x :: post) = (t ++ tx, Err e).
Proof.
  revert t ys. induction pre as [|a pre IH]; intros t ys Hpre Hx.
  - cbn in Hpre. injection Hpre as <- <-. cbn. now rewrite Hx.
  - cbn [app mapM] in *. bind_inv Hpre. bind_inv Hpre. injection Hpre as <- <-.
    rewrite (IH _ _ Hm0 Hx).
    rewrite (bind_ok_l _ _ _ _ Hm). cbn. subst. now rewrite app_nil_r, app_assoc.
Qed.

Section ReassemblerClaims.

Variable X : Collaborators.
Variable p : Params.
Variable rfile : Rfile.

Lemma process_ccd_combined (fwhms : list Q) (offs : list offset) (w : WCS)
  (frames : list MCCD) (cnam : string) (c : CCD) (t : list event)
  (st : stack_state) (stack : grid) :
  stack_loop X p fwhms offs w cnam 0 frames stack_init = (t, Ok st) ->
  (length (arrs st) =? 0)%nat || (nframes_used st =? 0)%nat = false ->
  combine X (comb_of p) (arrs st) = Some stack ->
  process_ccd X p fwhms offs w frames (cnam, c) =
  (t ++ EvCombine cnam (length (arrs st)) :: fst (reassemble cnam stack (winds c)),
   match snd (reassemble cnam stack (winds c)) with
   | Ok ws => Ok (cnam, set_winds c ws, nframes_used st)
   | Err e => Err e
   end).
Proof.
  intros Hl Hu Hc. unfold process_ccd. rewrite (bind_ok_l _ _ _ _ Hl). cbn beta.
  rewrite Hu, Hc. cbn [lift emit ret bind].
  destruct (reassemble cnam stack (winds c)) as [tr [ws|e]]; cbn; now rewrite ?app_nil_r.
Qed.

(** C9.  The run has come to a CCD whose stack was combined into [stack].
    If a window's crop has an undefined cell, and no window before it has
    one, the run ends with the error that names the CCD and that window.
    If no crop has an undefined cell, every window of the CCD gets its
    crop as data, unchanged: the window at each position of the output
    CCD keeps its name and geometry, and its [data] is the crop of
    [stack] at that window. *)
Theorem nan_in_crop_is_fatal (frames : list MCCD) (t0 tw t1 t2 : list event)
  (est : est_state) (offs : list offset) (output_mccd : MCCD) (w : WCS)
  (pre post : list (string * CCD)) (cnam : string) (c : CCD)
  (done : list (string * CCD * nat)) (st : stack_state) (stack : grid)
  (Hest : estimate_offsets X p rfile frames = (t0, Ok est))
  (Hnorm : normalise_offsets (offsets est) = Some offs)
  (Hhd : hd_error frames = Some output_mccd)
  (Hwcs : choose_wcs X p output_mccd = (tw, Ok w))
  (Hccds : ccds output_mccd = pre ++ (cnam, c) :: post)
  (Hpre : mapM (process_ccd X p (fwhm_values est) offs w frames) pre = (t1, Ok done))
  (Hloop : stack_loop X p (fwhm_values est) offs w cnam 0 frames stack_init = (t2, Ok st))
  (Hused : (length (arrs st) =? 0)%nat || (nframes_used st =? 0)%nat = false)
  (Hcomb : combine X (comb_of p) (arrs st) = Some stack) :
  (forall wpre wnam wind wpost,
     winds c = wpre ++ (wnam, wind) :: wpost ->
     crops_defined stack wpre ->
     any_nan (window_crop stack wind) = true ->
     shiftadd X p rfile frames
       = (t0 ++ t1 ++ t2 ++ [EvCombine cnam (length (arrs st))],
          Err (ErrNaNCrop cnam wnam))) /\
  (crops_defined stack (winds c) ->
   process_ccd X p (fwhm_values est) offs w frames (cnam, c)
     = (t2 ++ [EvCombine cnam (length (arrs st))],
        Ok (cnam, set_winds c (with_crops stack (winds c)), nframes_used st))) /\
  (crops_defined stack (winds c) ->
   exists c',
     process_ccd X p (fwhm_values est) offs w frames (cnam, c)
       = (t2 ++ [EvCombine cnam (length (arrs st))], Ok (cnam, c', nframes_used st)) /\
     length (winds c') = length (winds c) /\
     forall i wnam w0,
       nth_error (winds c) i = Some (wnam, w0) ->
       exists w',
         nth_error (winds c') i = Some (wnam, w') /\
         data w' = window_crop stack w0 /\
         any_nan (data w') = false /\
         (llx w', lly w', xbin w', ybin w', nx w', ny w')
         = (llx w0, lly w0, xbin w0, ybin w0, nx w0, ny w0)).
Proof.
  pose proof (process_ccd_combined (fwhm_values est) offs w frames cnam c t2 st stack
                Hloop Hused Hcomb) as Hp.
  split; [|split].
  - intros wpre wnam wind wpost Hw Hdef Hnan.
    rewrite Hw, (reassemble_first_nan cnam stack wpre wpost wnam wind Hdef Hnan) in Hp.
    cbn [fst snd] in Hp.
    assert (tw = []) as -> by (pose proof (choose_wcs_trace X p output_mccd) as E;
                               now rewrite Hwcs in E).
    unfold shiftadd. rewrite (bind_ok_l _ _ _ _ Hest). cbn beta.
    rewrite Hnorm, Hhd. cbn [lift]. rewrite !bind_ret_l.
    change (@nil event, Ok w) with (ret w) in Hwcs. rewrite Hwcs, bind_ret_l.
    rewrite Hccds, (mapM_app_err_trace _ _ _ _ _ _ _ _ Hpre Hp). reflexivity.
  - intros Hdef. rewrite (reassemble_ok cnam stack (winds c) Hdef) in Hp. exact Hp.
  - intros Hdef. rewrite (reassemble_ok cnam stack (winds c) Hdef) in Hp.
    exists (set_winds c (with_crops stack (winds c))). split; [exact Hp|].
    cbn [winds set_winds]. unfold with_crops. split; [apply length_map|].
    intros i wnam w0 Hi. rewrite nth_error_map, Hi. cbn [option_map fst snd].
    exists (set_data w0 (window_crop stack w0)). split; [reflexivity|].
    cbn [data set_data llx lly xbin ybin nx ny]. split; [reflexivity|].
    split; [|reflexivity].
    apply (Hdef (wnam, w0)). eapply nth_error_In. exact Hi.
Qed.

End ReassemblerClaims.

(** Two runs.  In the first the anchor frame is left out by the
    threshold; the one frame that is used has drifted by 4 pixels, its
    mask falls off the 2x2 grid and the crop of window "W" is undefined.
    In the second CCD "1" is stacked from three frames: window "W", whose
    data in the first frame was 0 0 / 2 0, comes out holding the crop of
    the combined array, 0 0 / 0 0. *)
Lemma nan_in_crop_is_fatal_witness :
  (exists t0 t2 est offs st stack,
     estimate_offsets toy (toy_params 5 Adaptive) toy_rfile toy_drift_frames
       = (t0, Ok est) /\
     normalise_offsets (offsets est) = Some offs /\
     stack_loop toy (toy_params 5 Adaptive) (fwhm_values est) offs basic_wcs "1" 0
                toy_drift_frames stack_init = (t2, Ok st) /\
     combine toy (comb_of (toy_params 5 Adaptive)) (arrs st) = Some stack /\
     any_nan (window_crop stack (toy_window 0 0 9)) = true /\
     shiftadd toy (toy_params 5 Adaptive) toy_rfile toy_drift_frames
       = (t0 ++ [] ++ t2 ++ [EvCombine "1" (length (arrs st))],
          Err (ErrNaNCrop "1" "W"))) /\
  (exists t0 t2 est offs st stack,
     estimate_offsets toy (toy_params (-1) Interp) toy_rfile toy_three_frames
       = (t0, Ok est) /\
     normalise_offsets (offsets est) = Some offs /\
     stack_loop toy (toy_params (-1) Interp) (fwhm_values est) offs basic_wcs "1" 0
                toy_three_frames stack_init = (t2, Ok st) /\
     combine toy (comb_of (toy_params (-1) Interp)) (arrs st) = Some stack /\
     data (toy_window 0 0 2) = [[Val 0; Val 0]; [Val 2; Val 0]] /\
     exists c' w',
       process_ccd toy (toy_params (-1) Interp) (fwhm_values est) offs basic_wcs
                   toy_three_frames
                   ("1"%string, toy_ccd true [("W"%string, toy_window 0 0 2)])
         = (t2 ++ [EvCombine "1" (length (arrs st))], Ok ("1"%string, c', nframes_used st)) /\
       nth_error (winds c') 0 = Some ("W"%string, w') /\
       data w' = window_crop stack (toy_window 0 0 2) /\
       data w' = [[Val 0; Val 0]; [Val 0; Val 0]]).
Proof.
  split.
  - do 6 eexists.
    split; [vm_compute; reflexivity|].
    split; [vm_compute; reflexivity|].
    split; [vm_compute; reflexivity|].
    split; [vm_compute; reflexivity|].
    split; [vm_compute; reflexivity|].
    refine (proj1 (nan_in_crop_is_fatal toy (toy_params 5 Adaptive) toy_rfile
                     toy_drift_frames _ [] [] _ _ _ (toy_frame true true 0 0 9 10)
                     basic_wcs []
                     [("2"%string, toy_ccd true [("W"%string, toy_window 0 0 9)])]
                     "1" (toy_ccd true [("W"%string, toy_window 0 0 9)]) [] _ _
                     eq_refl eq_refl eq_refl eq_refl eq_refl eq_refl eq_refl eq_refl
                     eq_refl)
              [] "W"%string (toy_window 0 0 9) [] eq_refl _ eq_refl).
    intros x [].
  - do 6 eexists.
    match goal with |- ?A /\ _ => assert (H1 : A) by (vm_compute; reflexivity) end.
    split; [exact H1|].
    match goal with |- ?A /\ _ => assert (H2 : A) by (vm_compute; reflexivity) end.
    split; [exact H2|].
    match goal with |- ?A /\ _ => assert (H3 : A) by (vm_compute; reflexivity) end.
    split; [exact H3|].
    match goal with |- ?A /\ _ => assert (H4 : A) by (vm_compute; reflexivity) end.
    split; [exact H4|].
    split; [reflexivity|].
    match type of H4 with _ = Some ?stk =>
      assert (Hdef : crops_defined stk
                       (winds (toy_ccd true [("W"%string, toy_window 0 0 2)])))
        by (intros x [<-|[]]; vm_compute; reflexivity)
    end.
    destruct (proj2 (proj2
                (nan_in_crop_is_fatal toy (toy_params (-1) Interp) toy_rfile
                   toy_three_frames _ [] [] _ _ _ (toy_frame true true 0 0 2 10)
                   basic_wcs []
                   [("2"%string, toy_ccd true [("W"%string, toy_window 0 0 2)])]
                   "1" (toy_ccd true [("W"%string, toy_window 0 0 2)]) [] _ _
                   H1 H2 eq_refl eq_refl eq_refl eq_refl H3 eq_refl H4)) Hdef)
      as (c' & Hp & _ & Hw).
    destruct (Hw 0%nat "W"%string (toy_window 0 0 2) eq_refl) as (w' & Hn & Hd & _ & _).
    exists c', w'. split; [exact Hp|]. split; [exact Hn|]. split; [exact Hd|].
    rewrite Hd. vm_compute. reflexivity.
Defined.

(** ** Pairing of frames and offsets *)

(** C4 at a failing input.  The first frame has no data in any CCD and
    the estimator records nothing for it, so the two offsets it returns,
    (0,0) and (3,0), belong to the second and third frames.  The resampler
    indexes them with the position in the frame list: the second frame
    ([nf = 1]) is reprojected with (3,0), the offset of the third frame
    (the reference pixel becomes 3/2 in the 2x2 binned grid), and the third
    frame ([nf = 2]) finds no entry, which ends the run. *)
Lemma gap_frame_misaligns_offsets :
  exists t est offs o1 o2,
    estimate_offsets toy (toy_params (-1) Adaptive) toy_rfile toy_gap_frames
      = (t, Ok est) /\
    map (recorded "1") toy_gap_frames = [false; true; true] /\
    normalise_offsets (offsets est) = Some offs /\
    offs = [o1; o2] /\ off_eq o1 (0, 0) /\ off_eq o2 (3, 0) /\
    nth_error offs 1 = Some o2 /\
    nth_error offs 2 = None /\
    shiftadd toy (toy_params (-1) Adaptive) toy_rfile toy_gap_frames
      = ([EvMoveApers 2; EvMoveApers 3; EvReproject "1" 1 "W" (12 # 8, 0 # 8)],
         Err ErrIndex).
Proof.
  do 5 eexists.
  split; [vm_compute; reflexivity|].
  split; [reflexivity|].
  split; [vm_compute; reflexivity|].
  split; [reflexivity|].
  split; [split; reflexivity|].
  split; [split; reflexivity|].
  split; [reflexivity|].
  split; [reflexivity|].
  vm_compute. reflexivity.
Qed.

(** * Further properties *)

(** ** Drift normaliser: what the two steps do to a trajectory *)

Lemma normalise_offsets_value (offs out : list offset) :
  normalise_offsets offs = Some out ->
  exists k t anchor,
    argmin_aux (map total_offset (centre offs)) = Some (k, t) /\
    nth_error (centre offs) k = Some anchor /\
    out = sub_all (centre offs) anchor.
Proof.
  intros H.
  assert (Hne : offs <> []) by (destruct offs; [discriminate | congruence]).
  destruct (normalise_offsets_unfold offs Hne) as (k & t & anchor & E & En & _ & Hn).
  rewrite Hn in H. injection H as <-. exists k, t, anchor. auto.
Qed.

(** The normaliser only translates the trajectory: there is one offset [c]
    that is subtracted from every frame, so the list keeps its length and
    order and the displacement between any two frames is unchanged. *)
Theorem normalise_offsets_is_translation (offs out : list offset)
  (H : normalise_offsets offs = Some out) :
  length out = length offs /\
  exists c : offset,
    (forall i o, nth_error offs i = Some o ->
       exists o', nth_error out i = Some o' /\ off_eq o' (off_sub o c)) /\
    (forall i j oi oj oi' oj',
       nth_error offs i = Some oi -> nth_error offs j = Some oj ->
       nth_error out i = Some oi' -> nth_error out j = Some oj' ->
       off_eq (off_sub oi' oj') (off_sub oi oj)).
Proof.
  destruct (normalise_offsets_value offs out H) as (k & t & anchor & _ & _ & ->).
  split; [unfold sub_all, centre, sub_all; now rewrite !length_map|].
  set (m := col_mean offs).
  assert (Hi : forall i o, nth_error offs i = Some o ->
                 nth_error (sub_all (centre offs) anchor) i
                 = Some (off_sub (off_sub o m) anchor)).
  { intros i o Hi. unfold sub_all, centre, sub_all. rewrite !nth_error_map, Hi.
    reflexivity. }
  exists (fst m + fst anchor, snd m + snd anchor). split.
  - intros i o Ho. eexists. split; [apply Hi, Ho|]. split; cbn; ring.
  - intros i j oi oj oi' oj' A B A' B'.
    rewrite (Hi i oi A) in A'. rewrite (Hi j oj B) in B'.
    injection A' as <-. injection B' as <-. split; cbn; ring.
Qed.

Lemma normalise_offsets_is_translation_witness :
  normalise_offsets [(0, 0); (1, 0); (5, 0)]
    = Some [(-9 # 9, 0 # 9); (0 # 9, 0 # 9); (36 # 9, 0 # 9)] /\
  length [(-9 # 9, 0 # 9); (0 # 9, 0 # 9); (36 # 9, 0 # 9)]
    = length [(0, 0); (1, 0); (5, 0)] /\
  exists c : offset,
    (forall i o, nth_error [(0, 0); (1, 0); (5, 0)] i = Some o ->
       exists o',
         nth_error [(-9 # 9, 0 # 9); (0 # 9, 0 # 9); (36 # 9, 0 # 9)] i = Some o' /\
         off_eq o' (off_sub o c)) /\
    (forall i j oi oj oi' oj',
       nth_error [(0, 0); (1, 0); (5, 0)] i = Some oi ->
       nth_error [(0, 0); (1, 0); (5, 0)] j = Some oj ->
       nth_error [(-9 # 9, 0 # 9); (0 # 9, 0 # 9); (36 # 9, 0 # 9)] i = Some oi' ->
       nth_error [(-9 # 9, 0 # 9); (0 # 9, 0 # 9); (36 # 9, 0 # 9)] j = Some oj' ->
       off_eq (off_sub oi' oj') (off_sub oi oj)).
Proof.
  split; [reflexivity|].
  apply (normalise_offsets_is_translation [(0, 0); (1, 0); (5, 0)]). reflexivity.
Defined.

(** The normaliser raises on the empty list and on nothing else. *)
Theorem normalise_offsets_fails_iff_empty (offs : list offset) :
  normalise_offsets offs = None <-> offs = [].
Proof.
  split.
  - intros H. destruct offs as [|o l]; [reflexivity|].
    destruct (normalise_offsets_unfold (o :: l)) as (k & t & a & _ & _ & _ & E);
      [discriminate | congruence].
  - intros ->. reflexivity.
Qed.

(** ** Offset estimator: what is recorded, and in which order *)

Section EstimatorMore.

Variable X : Collaborators.
Variable p : Params.
Variable rfile : Rfile.

Lemma ref_shifts_trace (store : Store) (apers : list (string * Aperture)) :
  fst (ref_shifts store apers) = [].
Proof.
  unfold ref_shifts. induction (filter _ apers) as [|a l IH]; [reflexivity|].
  cbn [mapM]. destruct (lookup (fst a) (shifts store)); cbn [lift];
    [rewrite bind_ret_l | reflexivity].
  destruct (mapM _ l) as [tl [ys|e]]; cbn in IH |- *; now subst.
Qed.

Lemma np_mean_ok (l : list Q) (t : list event) (m : Q) :
  np_mean l = (t, Ok m) -> t = [] /\ l <> [] /\ m = Qmean l.
Proof.
  unfold np_mean. destruct l; intros H; inversion H. repeat split. discriminate.
Qed.

Lemma est_step_recorded (nf : nat) (mccd : MCCD) (st st' : est_state) (t : list event) :
  est_step X p rfile nf mccd st = (t, Ok st') ->
  recorded (ref_cnam p) mccd = true ->
  t = [EvMoveApers (nf + first p)] /\
  offsets st' = offsets st ++ [(xoff st', yoff st')] /\
  length (mjds st') = S (length (mjds st)).
Proof.
  unfold est_step, recorded. intros H Hr.
  bind_inv H. lift_inv Hm. rewrite Hm in Hr. rewrite Hr in H. cbn [negb] in H.
  bind_inv H. lift_inv Hm0. bind_inv H. bind_inv H. lift_inv Hm2.
  bind_inv H. lift_inv Hm3. bind_inv H.
  pose proof (ref_shifts_trace a2 a0) as Hs. rewrite Hm4 in Hs. cbn in Hs.
  bind_inv H. apply np_mean_ok in Hm5. destruct Hm5 as (-> & _ & _).
  bind_inv H. apply np_mean_ok in Hm5. destruct Hm5 as (-> & _ & _).
  injection H as <- <-. cbn [offsets xoff yoff mjds].
  unfold emit in Hm1. injection Hm1 as <- <-. subst.
  rewrite length_app. cbn. split; [reflexivity|]. split; [reflexivity|]. lia.
Qed.

Lemma est_loop_trace (frames : list MCCD) (nf : nat) (st st' : est_state)
  (t : list event) :
  est_loop X p rfile nf frames st = (t, Ok st') ->
  t = map (fun i => EvMoveApers (i + first p)) (recorded_indices (ref_cnam p) nf frames) /\
  length (mjds st') = (length (mjds st) + count_recorded (ref_cnam p) frames)%nat /\
  (offsets st = [] \/ last (offsets st) (0, 0) = (xoff st, yoff st) ->
   offsets st' = [] \/ last (offsets st') (0, 0) = (xoff st', yoff st')).
Proof.
  revert nf st t. induction frames as [|f frames IH]; intros nf st t H.
  - cbn in H. injection H as <- <-. cbn. split; [reflexivity|]. split; [lia|]. auto.
  - cbn [est_loop] in H. bind_inv H. apply IH in H. destruct H as (Ht' & Hl & Hlast).
    cbn [recorded_indices]. unfold count_recorded in *. cbn [filter].
    destruct (recorded (ref_cnam p) f) eqn:Hr.
    + destruct (est_step_recorded _ _ _ _ _ Hm Hr) as (-> & Ho & Hj).
      subst. cbn [map app length]. split; [reflexivity|]. split; [lia|].
      intros _. apply Hlast. right. rewrite Ho. now rewrite last_last.
    + apply est_step_ok in Hm.
      destruct Hm as [(_ & _ & -> & ->) | (Hr' & _)]; [|congruence].
      subst. cbn [app]. split; [reflexivity|]. split; [exact Hl|]. exact Hlast.
Qed.

(** When the estimator succeeds it has called [moveApers] exactly once
    for each frame with data in the reference CCD, in frame order and under
    the frame number [nf + first], and for no other frame; the offset, FWHM
    and time lists have one entry per such frame, and the last offset is
    the running total. *)
Theorem estimator_records_each_reference_frame (frames : list MCCD)
  (t : list event) (st : est_state)
  (H : estimate_offsets X p rfile frames = (t, Ok st)) :
  t = map (fun i => EvMoveApers (i + first p))
          (recorded_indices (ref_cnam p) 0 frames) /\
  length (offsets st) = count_recorded (ref_cnam p) frames /\
  length (fwhm_values st) = count_recorded (ref_cnam p) frames /\
  length (mjds st) = count_recorded (ref_cnam p) frames /\
  (offsets st <> [] -> last (offsets st) (0, 0) = (xoff st, yoff st)).
Proof.
  unfold estimate_offsets in H.
  destruct (est_loop_lengths X p rfile frames 0 est_init st t H) as [L1 L2].
  destruct (est_loop_trace frames 0 est_init st t H) as (Ht & L3 & Hlast).
  cbn in L1, L2, L3. repeat split; auto.
  intros Hne. destruct (Hlast (or_introl eq_refl)) as [E | E]; [congruence | exact E].
Qed.

(** Without an aperture table for the reference CCD in the reduction file
    no fit is ever attempted, and the estimator can only succeed when it
    has nothing to record. *)
Theorem estimator_needs_aperture_table (frames : list MCCD)
  (Hno : lookup (ref_cnam p) (aper rfile) = None) :
  fst (estimate_offsets X p rfile frames) = [] /\
  (forall t st, estimate_offsets X p rfile frames = (t, Ok st) ->
                count_recorded (ref_cnam p) frames = 0%nat /\ offsets st = []) /\
  (forall mccd rest, frames = mccd :: rest -> recorded (ref_cnam p) mccd = true ->
                     estimate_offsets X p rfile frames = ([], Err (ErrKey (ref_cnam p)))).
Proof.
  assert (Hstep : forall nf mccd st,
             est_step X p rfile nf mccd st = ([], Ok st) /\ recorded (ref_cnam p) mccd = false \/
             exists e, est_step X p rfile nf mccd st = ([], Err e) /\
                       (recorded (ref_cnam p) mccd = true -> e = ErrKey (ref_cnam p))).
  { intros nf mccd st. unfold est_step, recorded.
    destruct (lookup (ref_cnam p) (ccds mccd)) as [ccd|]; cbn [lift].
    - rewrite bind_ret_l. destruct (is_data ccd); cbn [negb].
      + rewrite Hno. cbn [lift]. right. eexists. split; [reflexivity|auto].
      + destruct (any_data mccd); cbn [negb].
        * right. eexists. split; [reflexivity|discriminate].
        * left. auto.
    - right. eexists. split; [reflexivity|discriminate]. }
  assert (Hloop : forall fr nf st,
             (est_loop X p rfile nf fr st = ([], Ok st) /\
              count_recorded (ref_cnam p) fr = 0%nat) \/
             exists e, est_loop X p rfile nf fr st = ([], Err e)).
  { induction fr as [|f fr IH]; intros nf st; [left; auto|].
    cbn [est_loop]. unfold count_recorded. cbn [filter].
    destruct (Hstep nf f st) as [[E Hr] | (e & E & _)]; rewrite E.
    - change (@nil event, Ok st) with (ret st). rewrite bind_ret_l, Hr.
      apply IH.
    - right. exists e. reflexivity. }
  unfold estimate_offsets. split; [|split].
  - destruct (Hloop frames 0%nat est_init) as [[E _] | (e & E)]; now rewrite E.
  - intros t st H. destruct (Hloop frames 0%nat est_init) as [[E Hc] | (e & E)];
      rewrite E in H; [|discriminate].
    injection H as <- <-. auto.
  - intros mccd rest -> Hr. cbn [est_loop].
    destruct (Hstep 0%nat mccd est_init) as [[_ Hr'] | (e & E & He)]; [congruence|].
    rewrite E, (He Hr). reflexivity.
Qed.

End EstimatorMore.

Lemma estimator_records_each_reference_frame_witness :
  exists t st,
    estimate_offsets toy (toy_params (-1) Adaptive) toy_rfile toy_gap_frames = (t, Ok st) /\
    t = [EvMoveApers 2; EvMoveApers 3] /\
    t = map (fun i => EvMoveApers (i + first (toy_params (-1) Adaptive)))
            (recorded_indices (ref_cnam (toy_params (-1) Adaptive)) 0 toy_gap_frames) /\
    length (offsets st) = count_recorded (ref_cnam (toy_params (-1) Adaptive)) toy_gap_frames /\
    length (fwhm_values st) = count_recorded (ref_cnam (toy_params (-1) Adaptive)) toy_gap_frames /\
    length (mjds st) = count_recorded (ref_cnam (toy_params (-1) Adaptive)) toy_gap_frames /\
    (offsets st <> [] -> last (offsets st) (0, 0) = (xoff st, yoff st)).
Proof.
  eexists. eexists. split; [vm_compute; reflexivity|]. split; [reflexivity|].
  eapply (estimator_records_each_reference_frame toy (toy_params (-1) Adaptive)
            toy_rfile toy_gap_frames).
  vm_compute. reflexivity.
Defined.

Lemma estimator_needs_aperture_table_witness :
  lookup (ref_cnam (toy_params (-1) Adaptive)) (aper (mkRfile [])) = None /\
  fst (estimate_offsets toy (toy_params (-1) Adaptive) (mkRfile []) toy_three_frames) = [] /\
  (forall t st,
     estimate_offsets toy (toy_params (-1) Adaptive) (mkRfile []) toy_three_frames
       = (t, Ok st) ->
     count_recorded (ref_cnam (toy_params (-1) Adaptive)) toy_three_frames = 0%nat /\
     offsets st = []) /\
  (forall mccd rest, toy_three_frames = mccd :: rest ->
     recorded (ref_cnam (toy_params (-1) Adaptive)) mccd = true ->
     estimate_offsets toy (toy_params (-1) Adaptive) (mkRfile []) toy_three_frames
       = ([], Err (ErrKey (ref_cnam (toy_params (-1) Adaptive))))).
Proof.
  split; [reflexivity|].
  apply (estimator_needs_aperture_table toy (toy_params (-1) Adaptive) (mkRfile [])
           toy_three_frames). reflexivity.
Defined.

(** ** Window assignment of the apertures (lines 456-463) *)

Section CcdwinMore.

Variable X : Collaborators.

Lemma find_window_nil_iff (ws : list (string * Window)) (x y : Q) :
  find_window X ws x y = None <-> ws = [].
Proof.
  split; [|intros ->; reflexivity].
  destruct ws as [|[wnam wind] t]; [reflexivity|]. cbn.
  destruct (negb _); [discriminate|]. destruct (find_window X t x y); discriminate.
Qed.

(** The window recorded for an aperture is the first window of the CCD, in
    dictionary order, at a positive distance from the aperture; the entry
    is [None] when the CCD has windows and none of them qualifies. *)
Theorem find_window_is_first_match (ws : list (string * Window)) (x y : Q) :
  (forall wnam, find_window X ws x y = Some (Some wnam) ->
     exists pre wind post,
       ws = pre ++ (wnam, wind) :: post /\
       0 < distance X wind x y /\
       forall w, In w pre -> distance X (snd w) x y <= 0) /\
  (find_window X ws x y = Some None <->
     ws <> [] /\ forall w, In w ws -> distance X (snd w) x y <= 0).
Proof.
  induction ws as [|[n0 w0] t [IH1 IH2]].
  - split; [discriminate|]. split; [discriminate | intros [H _]; congruence].
  - cbn [find_window]. destruct (Qle_bool (distance X w0 x y) 0) eqn:B; cbn [negb].
    + apply Qle_bool_iff in B. split.
      * intros wnam H. destruct (find_window X t x y) as [[r|]|] eqn:E; try discriminate.
        injection H as <-. destruct (IH1 r eq_refl) as (pre & wind & post & -> & Hd & Hp).
        exists ((n0, w0) :: pre), wind, post. split; [reflexivity|]. split; [exact Hd|].
        intros w [<-|Hw]; [exact B | now apply Hp].
      * split.
        -- intros H. split; [discriminate|]. intros w [<-|Hw]; [exact B|].
           destruct (find_window X t x y) as [[r|]|] eqn:E; try discriminate.
           ++ now apply IH2.
           ++ apply find_window_nil_iff in E. subst. destruct Hw.
        -- intros [_ H]. destruct (find_window X t x y) as [[r|]|] eqn:E; try reflexivity.
           exfalso. destruct (IH1 r eq_refl) as (pre & wind & post & -> & Hd & _).
           assert (distance X wind x y <= 0).
           { apply (H (r, wind)). right. apply in_or_app. right. now left. }
           lra.
    + assert (0 < distance X w0 x y).
      { apply Qnot_le_lt. intros C. apply Qle_bool_iff in C. congruence. }
      split.
      * intros wnam H'. injection H' as <-. exists [], w0, t.
        split; [reflexivity|]. split; [assumption|]. intros w [].
      * split; [discriminate|]. intros [_ H'].
        specialize (H' (n0, w0) (or_introl eq_refl)). cbn in H'. lra.
Qed.

(** When the reference CCD has at least one window every aperture gets an
    entry, in the order of the aperture table; when it has none the table
    of assignments stays empty. *)
Theorem make_ccdwin_keys (apers : list (string * Aperture)) (ws : list (string * Window)) :
  (ws = [] -> make_ccdwin X apers ws = []) /\
  (ws <> [] -> map fst (make_ccdwin X apers ws) = map fst apers).
Proof.
  split.
  - intros ->. induction apers as [|[n a] t IH]; [reflexivity|]. exact IH.
  - intros Hne. induction apers as [|[n a] t IH]; [reflexivity|].
    cbn [make_ccdwin]. destruct (find_window X ws (ap_x a) (ap_y a)) eqn:E.
    + cbn. now rewrite IH.
    + apply find_window_nil_iff in E. congruence.
Qed.

End CcdwinMore.

(** ** [wcs_from_header]: where the pixel limits come from *)

Lemma scan_windows_some (ws : list (string * Window)) (n : nat) (l : limits) :
  exists llxmin llymin,
    scan_windows (S n) ws (Some l) = Some (llxmin, llymin, snd (fst l), snd l) /\
    (llxmin <= fst (fst (fst l)))%Z /\ (llymin <= snd (fst (fst l)))%Z /\
    (forall w, In w ws -> (llxmin <= llx (snd w))%Z /\ (llymin <= lly (snd w))%Z) /\
    (llxmin = fst (fst (fst l)) \/ exists w, In w ws /\ llx (snd w) = llxmin) /\
    (llymin = snd (fst (fst l)) \/ exists w, In w ws /\ lly (snd w) = llymin).
Proof.
  revert n l. induction ws as [|[nm w] t IH]; intros n [[[a b] xb] yb].
  - exists a, b. cbn. repeat split; auto; try lia; intros ? [].
  - cbn [scan_windows].
    destruct (IH (S n) (Z.min a (llx w), Z.min b (lly w), xb, yb))
      as (lx & ly & E & Hx & Hy & Hall & Hex & Hey).
    cbn [fst snd] in *. exists lx, ly.
    split; [exact E|]. split; [lia|]. split; [lia|]. split; [|split].
    + intros w' [<-|Hw]; [cbn; lia | now apply Hall].
    + destruct Hex as [->|(w' & Hw & <-)].
      * destruct (Z.min_spec a (llx w)) as [[_ ->]|[_ ->]]; [now left|].
        right. exists (nm, w). split; [now left | reflexivity].
      * right. exists w'. split; [now right | reflexivity].
    + destruct Hey as [->|(w' & Hw & <-)].
      * destruct (Z.min_spec b (lly w)) as [[_ ->]|[_ ->]]; [now left|].
        right. exists (nm, w). split; [now left | reflexivity].
      * right. exists w'. split; [now right | reflexivity].
Qed.

(** Within one CCD the limits are the least [llx] and the least [lly] of
    its windows, each attained by a window, and the binning factors are
    those of the first window; earlier limits are forgotten. *)
Theorem scan_windows_limits (nm : string) (w0 : Window) (t : list (string * Window))
  (acc : option limits) :
  exists llxmin llymin,
    scan_windows 0 ((nm, w0) :: t) acc = Some (llxmin, llymin, xbin w0, ybin w0) /\
    (forall w, In w ((nm, w0) :: t) ->
       (llxmin <= llx (snd w))%Z /\ (llymin <= lly (snd w))%Z) /\
    (exists w, In w ((nm, w0) :: t) /\ llx (snd w) = llxmin) /\
    (exists w, In w ((nm, w0) :: t) /\ lly (snd w) = llymin).
Proof.
  cbn [scan_windows]. cbv zeta.
  destruct (scan_windows_some t 0 (llx w0, lly w0, xbin w0, ybin w0))
    as (lx & ly & E & Hx & Hy & Hall & Hex & Hey).
  cbn [fst snd] in *. exists lx, ly. split; [exact E|]. split; [|split].
  - intros w [<-|Hw]; [cbn; lia | now apply Hall].
  - destruct Hex as [->|(w & Hw & <-)].
    + exists (nm, w0). split; [now left | reflexivity].
    + exists w. split; [now right | reflexivity].
  - destruct Hey as [->|(w & Hw & <-)].
    + exists (nm, w0). split; [now left | reflexivity].
    + exists w. split; [now right | reflexivity].
Qed.

Lemma scan_ccds_app (cs : list (string * CCD)) (c : string * CCD) :
  scan_ccds (cs ++ [c]) = scan_windows 0 (winds (snd c)) (scan_ccds cs).
Proof. unfold scan_ccds. now rewrite fold_left_app. Qed.

Lemma scan_windows_0_acc (ws : list (string * Window)) (acc acc' : option limits) :
  ws <> [] -> scan_windows 0 ws acc = scan_windows 0 ws acc'.
Proof. destruct ws as [|[n w] t]; [congruence|]. reflexivity. Qed.

(** The limits that reach the WCS are those of the last CCD that has a
    window: a CCD with windows at the end of the MCCD makes every CCD
    before it irrelevant, and a CCD without windows changes nothing.  So
    the reference pixel does not depend on "all windows". *)
Theorem wcs_from_header_uses_last_ccd (X : Collaborators) (h : Header)
  (cs : list (string * CCD)) (c : string * CCD) :
  (winds (snd c) <> [] ->
   wcs_from_header X (mkMCCD h (cs ++ [c])) = wcs_from_header X (mkMCCD h [c])) /\
  (winds (snd c) = [] ->
   wcs_from_header X (mkMCCD h (cs ++ [c])) = wcs_from_header X (mkMCCD h cs)).
Proof.
  unfold wcs_from_header. cbn [head ccds]. split; intros H.
  - rewrite scan_ccds_app. change [c] with ([] ++ [c]). rewrite scan_ccds_app.
    now rewrite (scan_windows_0_acc _ (scan_ccds cs) (scan_ccds []) H).
  - rewrite scan_ccds_app, H. reflexivity.
Qed.

Lemma scan_ccds_none_iff (cs : list (string * CCD)) :
  scan_ccds cs = None <-> forall c, In c cs -> winds (snd c) = [].
Proof.
  induction cs as [|c cs IH] using rev_ind.
  - split; [intros _ c [] | reflexivity].
  - rewrite scan_ccds_app. split.
    + intros H. destruct (winds (snd c)) as [|[n w] t] eqn:E.
      * cbn in H. intros c' Hc'. apply in_app_or in Hc'.
        destruct Hc' as [Hc'|[<-|[]]]; [now apply IH | exact E].
      * destruct (scan_windows_limits n w t (scan_ccds cs)) as (? & ? & E' & _).
        congruence.
    + intros H. rewrite (H c) by (apply in_or_app; right; now left). cbn.
      apply IH. intros c' Hc'. apply H, in_or_app. now left.
Qed.

(** The derivation fails exactly when one of RADEG, DECDEG, INSTRPA is
    missing from the header, when no CCD has a window, or when a binning
    factor that was picked up is zero; when it succeeds the result is a
    celestial WCS whose reference value is (RADEG, DECDEG). *)
Theorem wcs_from_header_fails_iff (X : Collaborators) (mccd : MCCD) :
  (wcs_from_header X mccd = None <->
     RADEG (head mccd) = None \/ DECDEG (head mccd) = None \/
     INSTRPA (head mccd) = None \/
     (forall c, In c (ccds mccd) -> winds (snd c) = []) \/
     (exists a b xb yb, scan_ccds (ccds mccd) = Some (a, b, xb, yb) /\
                        (xb = 0 \/ yb = 0)%Z)) /\
  (forall w, wcs_from_header X mccd = Some w ->
     celestial w = true /\
     exists ra dec, RADEG (head mccd) = Some ra /\ DECDEG (head mccd) = Some dec /\
                    crval w = (ra, dec)).
Proof.
  unfold wcs_from_header.
  destruct (RADEG (head mccd)) as [ra|]; [|split; [split; auto|discriminate]].
  destruct (DECDEG (head mccd)) as [dec|]; [|split; [split; auto|discriminate]].
  destruct (INSTRPA (head mccd)) as [pa|]; [|split; [split; auto|discriminate]].
  destruct (scan_ccds (ccds mccd)) as [[[[a b] xb] yb]|] eqn:E.
  - destruct ((xb =? 0)%Z || (yb =? 0)%Z) eqn:B.
    + split; [|discriminate]. split; [|reflexivity]. intros _.
      do 4 right. exists a, b, xb, yb. split; [reflexivity|].
      apply orb_prop in B. destruct B as [B|B]; apply Z.eqb_eq in B; auto.
    + split.
      * split; [discriminate|].
        intros [H|[H|[H|[H|(a' & b' & xb' & yb' & H & Hz)]]]]; try discriminate.
        -- apply scan_ccds_none_iff in H. congruence.
        -- injection H as <- <- <- <-. apply orb_false_elim in B.
           destruct B as [B1 B2]. apply Z.eqb_neq in B1, B2. lia.
      * intros w H. injection H as <-. cbn. split; [reflexivity|].
        exists ra, dec. auto.
  - split; [|discriminate]. split; [|reflexivity]. intros _.
    do 3 right. left. now apply scan_ccds_none_iff.
Qed.

(** ** Frame resampler: threshold, mask and slices *)

Section ResamplerMore.

Variable X : Collaborators.
Variable p : Params.

Lemma fwhm_too_large_off (fwhms : list Q) (nf : nat) :
  fthresh p <= 0 -> fwhm_too_large p fwhms nf = ret false.
Proof.
  intros H. unfold fwhm_too_large. apply Qle_bool_iff in H. now rewrite H.
Qed.

(** With a threshold that is not positive the list of FWHM values is never
    read: the stacking of a CCD, and with it the processing of the CCD,
    is the same whatever that list holds, even when it is too short. *)
Theorem threshold_off_ignores_fwhm (fwhms1 fwhms2 : list Q) (offs : list offset)
  (w : WCS) (frames : list MCCD) (c : string * CCD) (Hoff : fthresh p <= 0) :
  stack_loop X p fwhms1 offs w (fst c) 0 frames stack_init
    = stack_loop X p fwhms2 offs w (fst c) 0 frames stack_init /\
  process_ccd X p fwhms1 offs w frames c = process_ccd X p fwhms2 offs w frames c.
Proof.
  assert (L : forall fr nf st,
             stack_loop X p fwhms1 offs w (fst c) nf fr st
             = stack_loop X p fwhms2 offs w (fst c) nf fr st).
  { induction fr as [|f fr IH]; intros nf st; [reflexivity|].
    cbn [stack_loop]. apply bind_ext. intros ccd.
    unfold stack_step. rewrite !(fwhm_too_large_off _ _ Hoff).
    apply bind_ext. intros st'. apply IH. }
  split; [apply L|]. destruct c as [cnam c]. unfold process_ccd.
  cbn [fst] in L. now rewrite L.
Qed.

End ResamplerMore.

Lemma threshold_off_ignores_fwhm_witness :
  fthresh (toy_params (-1) Adaptive) <= 0 /\
  stack_loop toy (toy_params (-1) Adaptive) [2; 9; 3] [(0, 0); (0, 0); (0, 0)] basic_wcs
             (fst ("1"%string, toy_ccd true [("W"%string, toy_window 0 0 2)]))
             0 toy_three_frames stack_init
    = stack_loop toy (toy_params (-1) Adaptive) [] [(0, 0); (0, 0); (0, 0)] basic_wcs
             (fst ("1"%string, toy_ccd true [("W"%string, toy_window 0 0 2)]))
             0 toy_three_frames stack_init /\
  process_ccd toy (toy_params (-1) Adaptive) [2; 9; 3] [(0, 0); (0, 0); (0, 0)] basic_wcs
              toy_three_frames ("1"%string, toy_ccd true [("W"%string, toy_window 0 0 2)])
    = process_ccd toy (toy_params (-1) Adaptive) [] [(0, 0); (0, 0); (0, 0)] basic_wcs
              toy_three_frames ("1"%string, toy_ccd true [("W"%string, toy_window 0 0 2)]).
Proof.
  assert (H : fthresh (toy_params (-1) Adaptive) <= 0) by discriminate.
  split; [exact H|].
  exact (threshold_off_ignores_fwhm toy (toy_params (-1) Adaptive) [2; 9; 3] []
           [(0, 0); (0, 0); (0, 0)] basic_wcs toy_three_frames
           ("1"%string, toy_ccd true [("W"%string, toy_window 0 0 2)]) H).
Defined.

Lemma length_imap_from {A B : Type} (f : Z -> A -> B) (l : list A) (i : Z) :
  length (imap_from f i l) = length l.
Proof. revert i. induction l; intros i; cbn; auto. Qed.

Lemma slice_index_range (n i : Z) : (0 <= n)%Z -> (0 <= slice_index n i <= n)%Z.
Proof. intros H. unfold slice_index. destruct (Z.ltb_spec i 0); lia. Qed.

Lemma in_slice_complete (n a b i : Z) :
  (0 <= a)%Z -> (a <= i < b)%Z -> (i < n)%Z -> in_slice n a b i = true.
Proof.
  intros Ha Hi Hn. unfold in_slice, slice_index.
  destruct (Z.ltb_spec a 0), (Z.ltb_spec b 0); lia.
Qed.

(** The mask keeps the shape of the layer and never invents a value: a
    cell of the result is undefined or holds what the kernel put there.
    A cell whose row and column lie in the two index ranges, taken with
    start bounds that are not negative, keeps its value. *)
Theorem mask_outside_cells (g : grid) (ya yb xa xb : Z) :
  length (mask_outside g ya yb xa xb) = length g /\
  (forall r row, nth_error g r = Some row ->
     exists row', nth_error (mask_outside g ya yb xa xb) r = Some row' /\
                  length row' = length row) /\
  (forall r c px, grid_get (mask_outside g ya yb xa xb) r c = Some px ->
     px = NaN \/ grid_get g r c = Some px) /\
  (forall r c px,
     grid_get g r c = Some px ->
     (c < length (hd [] g))%nat ->
     (0 <= ya <= Z.of_nat r)%Z -> (Z.of_nat r < yb)%Z ->
     (0 <= xa <= Z.of_nat c)%Z -> (Z.of_nat c < xb)%Z ->
     grid_get (mask_outside g ya yb xa xb) r c = Some px).
Proof.
  unfold mask_outside, grid_get. split; [apply length_imap_from|]. split; [|split].
  - intros r row Hr. rewrite nth_error_imap_from, Hr. cbn [option_map].
    eexists. split; [reflexivity | apply length_imap_from].
  - intros r c px H. rewrite nth_error_imap_from in H.
    destruct (nth_error g r) as [row|]; [|discriminate]. cbn [option_map] in H.
    rewrite nth_error_imap_from in H.
    destruct (nth_error row c) as [q|]; [|discriminate]. cbn [option_map] in H.
    destruct (_ && _); injection H as <-; auto.
  - intros r c px H Hc Hy1 Hy2 Hx1 Hx2. rewrite nth_error_imap_from.
    destruct (nth_error g r) as [row|] eqn:Hr; [|discriminate]. cbn [option_map].
    rewrite nth_error_imap_from, H. cbn [option_map]. rewrite !Z.add_0_l.
    assert (r < length g)%nat by (apply nth_error_Some; congruence).
    rewrite (in_slice_complete (Z.of_nat (length g)) ya yb (Z.of_nat r)) by lia.
    rewrite (in_slice_complete (Z.of_nat (length (hd [] g))) xa xb (Z.of_nat c)) by lia.
    reflexivity.
Qed.

(** ** Python slices and the crop of a window *)

Lemma py_slice_spec {A : Type} (l : list A) (a b : Z) :
  (0 <= a)%Z -> (a <= b)%Z ->
  Z.of_nat (length (py_slice l a b))
    = (Z.min b (Z.of_nat (length l)) - Z.min a (Z.of_nat (length l)))%Z /\
  forall i, (i < length (py_slice l a b))%nat ->
            nth_error (py_slice l a b) i = nth_error l (Z.to_nat a + i).
Proof.
  intros Ha Hab. unfold py_slice, slice_index.
  destruct (Z.ltb_spec a 0), (Z.ltb_spec b 0); try lia.
  set (n := Z.of_nat (length l)).
  assert (Hlen : length (firstn (Z.to_nat (Z.min b n - Z.min a n))
                                (skipn (Z.to_nat (Z.min a n)) l))
                 = Z.to_nat (Z.min b n - Z.min a n)).
  { rewrite length_firstn, length_skipn. subst n. lia. }
  split; [rewrite Hlen; subst n; lia|].
  intros i Hi. rewrite Hlen in Hi.
  rewrite nth_error_firstn.
  destruct (Nat.ltb_spec i (Z.to_nat (Z.min b n - Z.min a n))); [|lia].
  rewrite nth_error_skipn. f_equal. subst n. lia.
Qed.

(** [l[a:b]] with bounds that are not negative holds the elements of
    [l] from position [a] up to, not including, [b], both clipped to the
    length of [l]: clipping is silent, the slice is simply shorter. *)
Theorem py_slice_nonneg {A : Type} (l : list A) (a b : Z)
  (Ha : (0 <= a)%Z) (Hab : (a <= b)%Z) :
  Z.of_nat (length (py_slice l a b))
    = (Z.min b (Z.of_nat (length l)) - Z.min a (Z.of_nat (length l)))%Z /\
  forall i, (i < length (py_slice l a b))%nat ->
            nth_error (py_slice l a b) i = nth_error l (Z.to_nat a + i).
Proof. exact (py_slice_spec l a b Ha Hab). Qed.

Lemma py_slice_nonneg_witness :
  (0 <= 1)%Z /\ (1 <= 5)%Z /\
  Z.of_nat (length (py_slice [10%Z; 20%Z; 30%Z] 1 5))
    = (Z.min 5 (Z.of_nat (length [10%Z; 20%Z; 30%Z]))
       - Z.min 1 (Z.of_nat (length [10%Z; 20%Z; 30%Z])))%Z /\
  forall i, (i < length (py_slice [10%Z; 20%Z; 30%Z] 1 5))%nat ->
            nth_error (py_slice [10%Z; 20%Z; 30%Z] 1 5) i
            = nth_error [10%Z; 20%Z; 30%Z] (Z.to_nat 1 + i).
Proof.
  split; [lia|]. split; [lia|].
  apply (py_slice_nonneg [10%Z; 20%Z; 30%Z] 1 5); lia.
Defined.

Lemma py_slice_In {A : Type} (l : list A) (a b : Z) (x : A) :
  In x (py_slice l a b) -> In x l.
Proof.
  unfold py_slice. intros H.
  set (m := Z.to_nat (slice_index (Z.of_nat (length l)) a)) in *.
  set (n := Z.to_nat _) in H.
  rewrite <- (firstn_skipn m l). apply in_or_app. right.
  rewrite <- (firstn_skipn n (skipn m l)). apply in_or_app. now left.
Qed.

(** A window that lies within the combined array, whose rows all have
    [ncols] cells, is cropped to exactly [ny] rows of [nx] cells, and cell
    (i, j) of the crop is cell (ystart + i, xstart + j) of the array. *)
Theorem window_crop_in_grid (stack : grid) (wind : Window) (ncols : nat)
  (Hrect : forall row, In row stack -> length row = ncols)
  (Hx0 : (0 <= llx wind / xbin wind)%Z) (Hnx : (0 <= nx wind)%Z)
  (Hx1 : (llx wind / xbin wind + nx wind <= Z.of_nat ncols)%Z)
  (Hy0 : (0 <= lly wind / ybin wind)%Z) (Hny : (0 <= ny wind)%Z)
  (Hy1 : (lly wind / ybin wind + ny wind <= Z.of_nat (length stack))%Z) :
  Z.of_nat (length (window_crop stack wind)) = ny wind /\
  (forall row, In row (window_crop stack wind) -> Z.of_nat (length row) = nx wind) /\
  (forall i j, (Z.of_nat i < ny wind)%Z -> (Z.of_nat j < nx wind)%Z ->
     grid_get (window_crop stack wind) i j
     = grid_get stack (Z.to_nat (lly wind / ybin wind) + i)
                      (Z.to_nat (llx wind / xbin wind) + j)).
Proof.
  unfold window_crop, crop2d.
  set (ys := (lly wind / ybin wind)%Z) in *. set (xs := (llx wind / xbin wind)%Z) in *.
  destruct (py_slice_spec stack ys (ys + ny wind)%Z) as [Ly Ny]; [lia | lia |].
  assert (Hrow : forall row, In row (py_slice stack ys (ys + ny wind)) ->
                             length row = ncols).
  { intros row Hr. apply Hrect. eapply py_slice_In. exact Hr. }
  split; [rewrite length_map; lia|]. split.
  - intros row Hr. apply in_map_iff in Hr. destruct Hr as (row0 & <- & Hr0).
    destruct (py_slice_spec row0 xs (xs + nx wind)%Z) as [Lx _]; [lia | lia |].
    rewrite (Hrow row0 Hr0) in Lx. lia.
  - intros i j Hi Hj. unfold grid_get. rewrite nth_error_map.
    rewrite Ny by lia.
    destruct (nth_error stack (Z.to_nat ys + i)) as [row0|] eqn:E; cbn [option_map].
    + assert (Hl : length row0 = ncols) by (apply Hrect; eapply nth_error_In; eassumption).
      destruct (py_slice_spec row0 xs (xs + nx wind)%Z) as [Lx Nx]; [lia | lia |].
      rewrite Hl in Lx. apply Nx. lia.
    + exfalso. apply nth_error_None in E. lia.
Qed.

(** A full-width window of a 2x2 array. *)
Lemma window_crop_in_grid_witness :
  (forall row, In row [[Val 1; Val 2]; [Val 3; Val 4]] -> length row = 2%nat) /\
  Z.of_nat (length (window_crop [[Val 1; Val 2]; [Val 3; Val 4]] (toy_window 0 0 2)))
    = ny (toy_window 0 0 2) /\
  (forall row, In row (window_crop [[Val 1; Val 2]; [Val 3; Val 4]] (toy_window 0 0 2)) ->
               Z.of_nat (length row) = nx (toy_window 0 0 2)) /\
  (forall i j, (Z.of_nat i < ny (toy_window 0 0 2))%Z ->
               (Z.of_nat j < nx (toy_window 0 0 2))%Z ->
     grid_get (window_crop [[Val 1; Val 2]; [Val 3; Val 4]] (toy_window 0 0 2)) i j
     = grid_get [[Val 1; Val 2]; [Val 3; Val 4]]
                (Z.to_nat (lly (toy_window 0 0 2) / ybin (toy_window 0 0 2)) + i)
                (Z.to_nat (llx (toy_window 0 0 2) / xbin (toy_window 0 0 2)) + j)).
Proof.
  assert (R : forall row, In row [[Val 1; Val 2]; [Val 3; Val 4]] -> length row = 2%nat).
  { intros row [<-|[<-|[]]]; reflexivity. }
  split; [exact R|].
  apply (window_crop_in_grid [[Val 1; Val 2]; [Val 3; Val 4]] (toy_window 0 0 2) 2 R);
    cbn; lia.
Defined.

(** ** Window reassembler: the two outcomes *)

Lemma with_crops_In (stack : grid) (ws : list (string * Window)) (wnam : string)
  (w : Window) :
  In (wnam, w) (with_crops stack ws) ->
  exists x, In x ws /\ wnam = fst x /\ w = set_data (snd x) (window_crop stack (snd x)).
Proof.
  unfold with_crops. intros H. apply in_map_iff in H. destruct H as (x & E & Hx).
  injection E as <- <-. eauto.
Qed.

Lemma reassemble_cases (cnam : string) (stack : grid) (ws : list (string * Window)) :
  (crops_defined stack ws /\
   reassemble cnam stack ws = ([], Ok (with_crops stack ws))) \/
  (exists pre wnam wind post,
     ws = pre ++ (wnam, wind) :: post /\
     crops_defined stack pre /\
     any_nan (window_crop stack wind) = true /\
     reassemble cnam stack ws = ([], Err (ErrNaNCrop cnam wnam))).
Proof.
  assert (D : crops_defined stack ws \/
              exists pre wnam wind post,
                ws = pre ++ (wnam, wind) :: post /\ crops_defined stack pre /\
                any_nan (window_crop stack wind) = true).
  { unfold crops_defined. induction ws as [|[n0 w0] t IH].
    - left. intros x [].
    - destruct (any_nan (window_crop stack w0)) eqn:E.
      + right. exists [], n0, w0, t. repeat split; auto. intros x [].
      + destruct IH as [IH | (pre & wnam & wind & post & -> & Hp & Hn)].
        * left. intros x [<-|Hx]; [exact E | now apply IH].
        * right. exists ((n0, w0) :: pre), wnam, wind, post.
          repeat split; auto. intros x [<-|Hx]; [exact E | now apply Hp]. }
  destruct D as [D | (pre & wnam & wind & post & -> & Hp & Hn)].
  - left. split; [exact D | now apply reassemble_ok].
  - right. exists pre, wnam, wind, post. repeat split; auto.
    now apply reassemble_first_nan.
Qed.

(** The reassembler calls no collaborator and has exactly two outcomes.
    Either no crop has an undefined cell, and it returns the windows under
    the same names, in the same order and with the same geometry, each
    holding its crop; or it raises the error that names the CCD and the
    first window, in dictionary order, whose crop has an undefined cell. *)
Theorem reassemble_outcome (cnam : string) (stack : grid) (ws : list (string * Window)) :
  (crops_defined stack ws /\
   reassemble cnam stack ws = ([], Ok (with_crops stack ws)) /\
   map fst (with_crops stack ws) = map fst ws /\
   (forall wnam w, In (wnam, w) (with_crops stack ws) ->
      any_nan (data w) = false /\
      exists w0, In (wnam, w0) ws /\ data w = window_crop stack w0 /\
                 (llx w, lly w, xbin w, ybin w, nx w, ny w)
                 = (llx w0, lly w0, xbin w0, ybin w0, nx w0, ny w0))) \/
  (exists pre wnam wind post,
     ws = pre ++ (wnam, wind) :: post /\
     crops_defined stack pre /\
     any_nan (window_crop stack wind) = true /\
     reassemble cnam stack ws = ([], Err (ErrNaNCrop cnam wnam))).
Proof.
  destruct (reassemble_cases cnam stack ws) as [[D E] | R]; [left | right; exact R].
  split; [exact D|]. split; [exact E|]. split.
  - unfold with_crops. rewrite map_map. reflexivity.
  - intros wnam w Hw. apply with_crops_In in Hw.
    destruct Hw as ([n0 w0] & Hx & -> & ->). cbn [fst snd set_data data].
    split; [exact (D _ Hx)|]. exists w0. auto.
Qed.

(** ** The run as a whole *)

Lemma lookup_In {A : Type} (k : string) (d : list (string * A)) (v : A) :
  lookup k d = Some v -> In (k, v) d.
Proof.
  induction d as [|[k' v'] d IH]; cbn; [discriminate|].
  destruct (String.eqb_spec k k') as [->|_].
  - intros H. injection H as <-. now left.
  - intros H. right. now apply IH.
Qed.

Lemma mapM_ok_In {A B : Type} (f : A -> M B) (l : list A) (t : list event)
  (ys : list B) (x : A) :
  mapM f l = (t, Ok ys) -> In x l -> exists t' y, f x = (t', Ok y) /\ In y ys.
Proof.
  revert t ys. induction l as [|a l IH]; intros t ys H Hx; [destruct Hx|].
  cbn [mapM] in H. bind_inv H. bind_inv H. injection H as <- <-.
  destruct Hx as [<-|Hx].
  - exists t0, a0. split; [assumption | now left].
  - destruct (IH _ _ Hm0 Hx) as (t' & y & E & Hy). exists t', y. split; [assumption | now right].
Qed.

Lemma sum_used_le (f : CCD -> nat) (b : nat) (p : Params) (fwhms : list Q)
  (cnam : string) (frames : list MCCD) (nf : nat) :
  (forall c, (f c <= b)%nat) ->
  (sum_used f p fwhms cnam nf frames <= b * length frames)%nat.
Proof.
  intros Hb. revert nf. induction frames as [|m frames IH]; intros nf; cbn; [lia|].
  specialize (IH (S nf)).
  destruct (lookup cnam (ccds m)) as [c|]; [destruct (survives p fwhms nf c)|];
    try specialize (Hb c); lia.
Qed.

Section RunMore.

Variable X : Collaborators.
Variable p : Params.
Variable rfile : Rfile.

Lemma process_ccd_ok (fwhms : list Q) (offs : list offset) (w : WCS)
  (frames : list MCCD) (cnam : string) (c : CCD) (t : list event)
  (r : string * CCD * nat) :
  process_ccd X p fwhms offs w frames (cnam, c) = (t, Ok r) ->
  exists t2 st stack,
    stack_loop X p fwhms offs w cnam 0 frames stack_init = (t2, Ok st) /\
    (1 <= nframes_used st)%nat /\
    combine X (comb_of p) (arrs st) = Some stack /\
    crops_defined stack (winds c) /\
    r = (cnam, set_winds c (with_crops stack (winds c)), nframes_used st).
Proof.
  unfold process_ccd. intros H. bind_inv H.
  destruct ((length (arrs a) =? 0)%nat || (nframes_used a =? 0)%nat) eqn:B;
    [discriminate|].
  apply orb_false_elim in B. destruct B as [_ B]. apply Nat.eqb_neq in B.
  bind_inv H. bind_inv H. lift_inv Hm1. bind_inv H. injection H as <- <-.
  exists t0, a, a1. split; [assumption|]. split; [lia|]. split; [assumption|].
  destruct (reassemble_cases cnam a1 (winds c))
    as [(D & E) | (pre & wn & wi & post & _ & _ & _ & E)];
    rewrite E in Hm2; [|discriminate].
  injection Hm2 as <- <-. auto.
Qed.

Lemma run_ccds_ok (fwhms : list Q) (offs : list offset) (w : WCS)
  (frames : list MCCD) (cs : list (string * CCD)) (t : list event)
  (done : list (string * CCD * nat)) :
  mapM (process_ccd X p fwhms offs w frames) cs = (t, Ok done) ->
  map (fun r => fst (fst r)) done = map fst cs /\
  map (fun r => (fst (fst r), snd r)) done
    = map (fun c => (fst c, used_frames p fwhms (fst c) 0 frames)) cs /\
  (forall c, In c cs -> (1 <= used_frames p fwhms (fst c) 0 frames)%nat) /\
  (forall r wnam wd, In r done -> In (wnam, wd) (winds (snd (fst r))) ->
                     any_nan (data wd) = false).
Proof.
  revert t done. induction cs as [|[cnam c] cs IH]; intros t done H.
  - cbn in H. injection H as <- <-. cbn. repeat split; auto; intros; contradiction.
  - cbn [mapM] in H. bind_inv H. bind_inv H. injection H as <- <-.
    destruct (IH _ _ Hm0) as (I1 & I2 & I3 & I4).
    destruct (process_ccd_ok _ _ _ _ _ _ _ _ Hm) as (t3 & st & stack & Hl & Hn & _ & Hd & ->).
    destruct (stack_loop_counts X p fwhms offs w cnam frames 0 stack_init st t3 Hl)
      as [Hu _].
    cbn [nframes_used stack_init plus] in Hu.
    cbn [map fst snd]. rewrite I1, I2, <- Hu. split; [reflexivity|].
    split; [reflexivity|]. split.
    + intros c' [<-|Hc]; [cbn [fst]; lia | now apply I3].
    + intros r wnam wd [<-|Hr] Hw; [|eapply I4; eassumption].
      cbn [fst snd set_winds winds] in Hw. apply with_crops_In in Hw.
      destruct Hw as (x & Hx & _ & ->). cbn [data set_data]. exact (Hd x Hx).
Qed.

(** What a successful run writes.  The output has the CCDs of the first
    frame, under the same names and in the same order; the history counts,
    for every CCD, the frames that survived its skip logic, at least one
    and at most all of them; and no window of the output holds an
    undefined pixel. *)
Theorem successful_run_output (frames : list MCCD) (t : list event) (out : Output)
  (H : shiftadd X p rfile frames = (t, Ok out)) :
  exists output_mccd t0 est,
    hd_error frames = Some output_mccd /\
    estimate_offsets X p rfile frames = (t0, Ok est) /\
    map fst (out_ccds out) = map fst (ccds output_mccd) /\
    out_nframes out
      = map (fun c => (fst c, used_frames p (fwhm_values est) (fst c) 0 frames))
            (ccds output_mccd) /\
    (forall cnam n, In (cnam, n) (out_nframes out) -> (1 <= n <= length frames)%nat) /\
    (forall cnam c wnam wd, In (cnam, c) (out_ccds out) -> In (wnam, wd) (winds c) ->
                            any_nan (data wd) = false).
Proof.
  unfold shiftadd in H. bind_inv H. bind_inv H. bind_inv H. lift_inv Hm1.
  bind_inv H. bind_inv H. bind_inv H. injection H as <- <-.
  exists a1, t0, a. split; [assumption|]. split; [assumption|].
  destruct (run_ccds_ok _ _ _ _ _ _ _ Hm3) as (I1 & I2 & I3 & I4).
  cbn [out_ccds out_nframes]. split; [|split; [exact I2|split]].
  - rewrite map_map. cbn [fst]. exact I1.
  - intros cnam n Hin. rewrite I2 in Hin. apply in_map_iff in Hin.
    destruct Hin as (c & E & Hc). injection E as <- <-. split; [now apply I3|].
    pose proof (sum_used_le (fun _ => 1%nat) 1 p (fwhm_values a) (fst c) frames 0
                  (fun _ => le_n 1)) as L.
    unfold used_frames. lia.
  - intros cnam c wnam wd Hin Hw. apply in_map_iff in Hin.
    destruct Hin as (r & E & Hr). injection E as <- <-. eapply I4; eassumption.
Qed.

End RunMore.

Lemma successful_run_output_witness :
  exists t out,
    shiftadd toy (toy_params 5 Interp) toy_rfile toy_three_frames = (t, Ok out) /\
    out_nframes out = [("1"%string, 2%nat); ("2"%string, 2%nat)] /\
    exists output_mccd t0 est,
      hd_error toy_three_frames = Some output_mccd /\
      estimate_offsets toy (toy_params 5 Interp) toy_rfile toy_three_frames = (t0, Ok est) /\
      map fst (out_ccds out) = map fst (ccds output_mccd) /\
      out_nframes out
        = map (fun c => (fst c, used_frames (toy_params 5 Interp) (fwhm_values est) (fst c)
                                            0 toy_three_frames))
              (ccds output_mccd) /\
      (forall cnam n, In (cnam, n) (out_nframes out) ->
                      (1 <= n <= length toy_three_frames)%nat) /\
      (forall cnam c wnam wd, In (cnam, c) (out_ccds out) -> In (wnam, wd) (winds c) ->
                              any_nan (data wd) = false).
Proof.
  eexists. eexists.
  split; [vm_compute; reflexivity|].
  split; [vm_compute; reflexivity|].
  eapply (successful_run_output toy (toy_params 5 Interp) toy_rfile toy_three_frames).
  vm_compute. reflexivity.
Defined.

(** ** Frames and their entries in a successful run *)

Lemma count_recorded_le (ref_name : string) (l : list MCCD) :
  (count_recorded ref_name l <= length l)%nat.
Proof. unfold count_recorded. apply filter_length_le. Qed.

Lemma count_recorded_app (ref_name : string) (l1 l2 : list MCCD) :
  count_recorded ref_name (l1 ++ l2)
  = (count_recorded ref_name l1 + count_recorded ref_name l2)%nat.
Proof. unfold count_recorded. now rewrite filter_app, length_app. Qed.

Lemma count_recorded_full (ref_name : string) (l : list MCCD) :
  count_recorded ref_name l = length l ->
  forall k, (k <= length l)%nat -> count_recorded ref_name (firstn k l) = k.
Proof.
  intros H k Hk.
  pose proof (count_recorded_le ref_name (firstn k l)) as L1.
  pose proof (count_recorded_le ref_name (skipn k l)) as L2.
  assert (A : count_recorded ref_name l
              = (count_recorded ref_name (firstn k l)
                 + count_recorded ref_name (skipn k l))%nat)
    by (now rewrite <- count_recorded_app, firstn_skipn).
  assert (B : length l = (length (firstn k l) + length (skipn k l))%nat)
    by (now rewrite <- length_app, firstn_skipn).
  pose proof (length_firstn k l) as C. lia.
Qed.

(** If every recorded frame sits at an index below the number of recorded
    frames, the recorded frames are the first ones of the list. *)
Lemma recorded_prefix (ref_name : string) (frames : list MCCD) :
  (forall k m, nth_error frames k = Some m -> recorded ref_name m = true ->
               (k < count_recorded ref_name frames)%nat) ->
  forall k m, nth_error frames k = Some m -> recorded ref_name m = true ->
              count_recorded ref_name (firstn k frames) = k.
Proof.
  induction frames as [|x l IH] using rev_ind; intros H k m Hk Hr.
  - destruct k; discriminate.
  - rewrite count_recorded_app in H. unfold count_recorded at 2 in H. cbn [filter] in H.
    destruct (recorded ref_name x) eqn:Hx; cbn [length] in H.
    + assert (Hl : (length l < count_recorded ref_name l + 1)%nat).
      { apply (H (length l) x); [|exact Hx].
        rewrite nth_error_app2 by lia. now rewrite Nat.sub_diag. }
      pose proof (count_recorded_le ref_name l) as Hle.
      assert (Hfull : count_recorded ref_name (l ++ [x]) = length (l ++ [x])).
      { rewrite count_recorded_app, length_app. unfold count_recorded at 2.
        cbn [filter]. rewrite Hx. cbn. lia. }
      apply count_recorded_full; [exact Hfull|].
      assert (k < length (l ++ [x]))%nat by (apply nth_error_Some; congruence). lia.
    + assert (Hkl : (k < length l)%nat).
      { assert (k < length (l ++ [x]))%nat by (apply nth_error_Some; congruence).
        rewrite length_app in *. cbn in *.
        destruct (Nat.eq_dec k (length l)) as [->|]; [|lia].
        rewrite nth_error_app2, Nat.sub_diag in Hk by lia. cbn in Hk. congruence. }
      rewrite firstn_app. replace (k - length l)%nat with 0%nat by lia.
      cbn [firstn]. rewrite app_nil_r.
      rewrite nth_error_app1 in Hk by lia.
      apply (IH) with (m := m); try assumption.
      intros k' m' Hk' Hr'.
      assert (k' < length l)%nat by (apply nth_error_Some; congruence).
      specialize (H k' m'). rewrite nth_error_app1 in H by lia.
      specialize (H Hk' Hr'). lia.
Qed.

Section AlignmentMore.

Variable X : Collaborators.
Variable p : Params.
Variable rfile : Rfile.

Lemma stack_loop_indices (fwhms : list Q) (offs : list offset) (w : WCS)
  (cnam : string) (frames : list MCCD) (nf : nat) (st st' : stack_state)
  (t : list event) :
  stack_loop X p fwhms offs w cnam nf frames st = (t, Ok st') ->
  forall k mccd ccd,
    nth_error frames k = Some mccd ->
    lookup cnam (ccds mccd) = Some ccd ->
    is_data ccd = true ->
    (nf + k < length fwhms \/ nf + k < length offs)%nat.
Proof.
  revert nf st t. induction frames as [|f frames IH]; intros nf st t H k mccd ccd Hk Hl Hd.
  - destruct k; discriminate.
  - cbn [stack_loop] in H. bind_inv H. lift_inv Hm. bind_inv H.
    destruct k as [|k]; cbn in Hk.
    + injection Hk as <-. rewrite Hl in Hm. injection Hm as <-.
      rewrite Nat.add_0_r. apply stack_step_ok in Hm0.
      destruct Hm0 as [(Hs & _) | (_ & o & layers & Ho & _)].
      * left. unfold survives in Hs. rewrite Hd in Hs. cbn [andb] in Hs.
        destruct (nth_error fwhms nf) eqn:E.
        -- apply nth_error_Some. congruence.
        -- rewrite andb_false_r in Hs. discriminate.
      * right. apply nth_error_Some. congruence.
    + rewrite Nat.add_succ_r. apply (IH (S nf) _ _ H k mccd ccd); assumption.
Qed.

Lemma est_loop_first_lookup (f : MCCD) (rest : list MCCD) (t : list event)
  (st : est_state) :
  estimate_offsets X p rfile (f :: rest) = (t, Ok st) ->
  exists ccd, lookup (ref_cnam p) (ccds f) = Some ccd.
Proof.
  unfold estimate_offsets. cbn [est_loop]. intros H. bind_inv H.
  unfold est_step in Hm. bind_inv Hm. lift_inv Hm0. eauto.
Qed.

(** In a run that succeeds no frame was skipped by the estimator ahead of
    a frame it recorded: the frames with data in the reference CCD are the
    first frames of the list, so the offset and the FWHM of each of them
    sit at the frame's own index.  (A run in which a skipped frame comes
    before a recorded one never succeeds.) *)
Theorem successful_run_is_aligned (frames : list MCCD) (t : list event) (out : Output)
  (H : shiftadd X p rfile frames = (t, Ok out)) :
  forall k mccd,
    nth_error frames k = Some mccd ->
    recorded (ref_cnam p) mccd = true ->
    count_recorded (ref_cnam p) (firstn k frames) = k /\
    forall j mj, (j < k)%nat -> nth_error frames j = Some mj ->
                 recorded (ref_cnam p) mj = true.
Proof.
  unfold shiftadd in H. bind_inv H. bind_inv H. lift_inv Hm0. bind_inv H. lift_inv Hm1.
  bind_inv H. bind_inv H. clear H.
  destruct frames as [|f rest]; [discriminate|]. cbn in Hm1. injection Hm1 as <-.
  destruct (est_loop_first_lookup _ _ _ _ Hm) as [c0 Hc0].
  apply lookup_In in Hc0.
  destruct (mapM_ok_In _ _ _ _ _ Hm3 Hc0) as (t' & r & Hp & _).
  clear Hm3.
  assert (Hloop : exists tl stl,
             stack_loop X p (fwhm_values a) a0 a2 (ref_cnam p) 0 (f :: rest) stack_init
             = (tl, Ok stl)).
  { unfold process_ccd in Hp. bind_inv Hp. eauto. }
  destruct Hloop as (tl & stl & Hloop).
  destruct (est_loop_lengths X p rfile (f :: rest) 0 est_init a t0 Hm) as [Lo Lf].
  cbn [offsets fwhm_values est_init length plus] in Lo, Lf.
  assert (La : length a0 = length (offsets a)).
  { destruct (normalise_offsets_value _ _ Hm0) as (k0 & tm & an & _ & _ & ->).
    unfold sub_all, centre, sub_all. now rewrite !length_map. }
  assert (Hidx : forall k m, nth_error (f :: rest) k = Some m ->
                   recorded (ref_cnam p) m = true ->
                   (k < count_recorded (ref_cnam p) (f :: rest))%nat).
  { intros k m Hk Hr. unfold recorded in Hr.
    destruct (lookup (ref_cnam p) (ccds m)) as [ccd|] eqn:El; [|discriminate].
    pose proof (stack_loop_indices _ _ _ _ _ _ _ _ _ Hloop k m ccd Hk El Hr) as Hi.
    cbn [plus] in Hi. lia. }
  intros k mccd Hk Hr.
  pose proof (recorded_prefix (ref_cnam p) (f :: rest) Hidx k mccd Hk Hr) as Hc.
  split; [exact Hc|].
  intros j mj Hj Hmj.
  destruct (recorded (ref_cnam p) mj) eqn:Hrj; [reflexivity|]. exfalso.
  assert (Hkl : (k < length (f :: rest))%nat) by (apply nth_error_Some; congruence).
  pose proof (firstn_skipn j (firstn k (f :: rest))) as Hsplit.
  rewrite firstn_firstn in Hsplit. replace (Nat.min j k) with j in Hsplit by lia.
  assert (Hnth : nth_error (skipn j (firstn k (f :: rest))) 0 = Some mj).
  { rewrite nth_error_skipn, Nat.add_0_r, nth_error_firstn.
    destruct (Nat.ltb_spec j k); [exact Hmj | lia]. }
  destruct (skipn j (firstn k (f :: rest))) as [|y tail] eqn:Es; [discriminate|].
  cbn in Hnth. injection Hnth as ->.
  rewrite <- Hsplit, count_recorded_app in Hc.
  unfold count_recorded at 2 in Hc. cbn [filter] in Hc. rewrite Hrj in Hc.
  pose proof (count_recorded_le (ref_cnam p) (firstn j (f :: rest))) as L1.
  pose proof (filter_length_le (recorded (ref_cnam p)) tail) as L2.
  assert (Hlen : length (firstn j (f :: rest) ++ mj :: tail) = k).
  { rewrite Hsplit, length_firstn. lia. }
  rewrite length_app in Hlen. cbn [length] in Hlen. lia.
Qed.

End AlignmentMore.

Lemma successful_run_is_aligned_witness :
  exists t out,
    shiftadd toy (toy_params 5 Interp) toy_rfile toy_three_frames = (t, Ok out) /\
    forall k mccd,
      nth_error toy_three_frames k = Some mccd ->
      recorded (ref_cnam (toy_params 5 Interp)) mccd = true ->
      count_recorded (ref_cnam (toy_params 5 Interp)) (firstn k toy_three_frames) = k /\
      forall j mj, (j < k)%nat -> nth_error toy_three_frames j = Some mj ->
                   recorded (ref_cnam (toy_params 5 Interp)) mj = true.
Proof.
  eexists. eexists. split; [vm_compute; reflexivity|].
  eapply (successful_run_is_aligned toy (toy_params 5 Interp) toy_rfile
            toy_three_frames).
  vm_compute. reflexivity.
Defined.

(** ** Runs without data, and the midpoint of the time stamps *)

Section NoDataMore.

Variable X : Collaborators.
Variable p : Params.
Variable rfile : Rfile.

Lemma any_data_false_ref (mccd : MCCD) (ccd : CCD) :
  any_data mccd = false -> lookup (ref_cnam p) (ccds mccd) = Some ccd ->
  is_data ccd = false.
Proof.
  unfold any_data. intros Ha Hl. apply lookup_In in Hl.
  destruct (is_data ccd) eqn:E; [|reflexivity].
  assert (existsb (fun c => is_data (snd c)) (ccds mccd) = true).
  { apply existsb_exists. exists (ref_cnam p, ccd). auto. }
  congruence.
Qed.

(** When no frame has data in any CCD (in particular when the list of
    frames is empty) nothing is fitted and nothing is resampled: the run
    ends inside numpy, on the empty array of offsets, not in one of the
    program's own error messages. *)
Theorem run_without_data_fails (frames : list MCCD)
  (Hkey : forall m, In m frames -> lookup (ref_cnam p) (ccds m) <> None)
  (Hempty : forall m, In m frames -> any_data m = false) :
  estimate_offsets X p rfile frames = ([], Ok est_init) /\
  shiftadd X p rfile frames = ([], Err ErrNumpy).
Proof.
  assert (E : forall nf st, est_loop X p rfile nf frames st = ([], Ok st)).
  { induction frames as [|f l IH]; intros nf st; [reflexivity|].
    cbn [est_loop].
    destruct (lookup (ref_cnam p) (ccds f)) as [ccd|] eqn:El;
      [|exfalso; apply (Hkey f); [now left | exact El]].
    pose proof (Hempty f (or_introl eq_refl)) as Ha.
    rewrite (est_step_all_empty X p rfile nf f ccd st El (any_data_false_ref f ccd Ha El) Ha).
    change (@nil event, Ok st) with (ret st). rewrite bind_ret_l.
    apply IH; intros; [apply Hkey | apply Hempty]; now right. }
  unfold shiftadd, estimate_offsets. rewrite E. split; reflexivity.
Qed.

End NoDataMore.

Lemma run_without_data_fails_witness :
  (forall m, In m [toy_frame false false 0 0 2 5] ->
             lookup (ref_cnam (toy_params (-1) Adaptive)) (ccds m) <> None) /\
  (forall m, In m [toy_frame false false 0 0 2 5] -> any_data m = false) /\
  estimate_offsets toy (toy_params (-1) Adaptive) toy_rfile [toy_frame false false 0 0 2 5]
    = ([], Ok est_init) /\
  shiftadd toy (toy_params (-1) Adaptive) toy_rfile [toy_frame false false 0 0 2 5]
    = ([], Err ErrNumpy).
Proof.
  assert (K : forall m, In m [toy_frame false false 0 0 2 5] ->
                        lookup (ref_cnam (toy_params (-1) Adaptive)) (ccds m) <> None).
  { intros m [<-|[]]. discriminate. }
  assert (E : forall m, In m [toy_frame false false 0 0 2 5] -> any_data m = false).
  { intros m [<-|[]]. reflexivity. }
  split; [exact K|]. split; [exact E|].
  exact (run_without_data_fails toy (toy_params (-1) Adaptive) toy_rfile
           [toy_frame false false 0 0 2 5] K E).
Defined.

Lemma fold_left_Qmin (t : list Q) (x : Q) :
  (fold_left Qmin t x = x \/ In (fold_left Qmin t x) t) /\
  fold_left Qmin t x <= x /\
  forall y, In y t -> fold_left Qmin t x <= y.
Proof.
  revert x. induction t as [|y t IH]; intros x.
  - cbn. split; [now left|]. split; [lra | intros ? []].
  - cbn [fold_left]. destruct (IH (Qmin x y)) as (Hin & Hle & Hall).
    pose proof (Q.le_min_l x y). pose proof (Q.le_min_r x y).
    split; [|split].
    + destruct Hin as [E|Hin]; [|right; now right].
      rewrite E. unfold Qmin, GenericMinMax.gmin.
      destruct (x ?= y); [now left | now left | right; now left].
    + lra.
    + intros z [<-|Hz]; [lra | now apply Hall].
Qed.

Lemma fold_left_Qmax (t : list Q) (x : Q) :
  (fold_left Qmax t x = x \/ In (fold_left Qmax t x) t) /\
  x <= fold_left Qmax t x /\
  forall y, In y t -> y <= fold_left Qmax t x.
Proof.
  revert x. induction t as [|y t IH]; intros x.
  - cbn. split; [now left|]. split; [lra | intros ? []].
  - cbn [fold_left]. destruct (IH (Qmax x y)) as (Hin & Hle & Hall).
    pose proof (Q.le_max_l x y). pose proof (Q.le_max_r x y).
    split; [|split].
    + destruct Hin as [E|Hin]; [|right; now right].
      rewrite E. unfold Qmax, GenericMinMax.gmax.
      destruct (x ?= y); [now left | right; now left | now left].
    + lra.
    + intros z [<-|Hz]; [lra | now apply Hall].
Qed.

(** The midpoint is defined exactly for a non-empty list of time stamps;
    it is then half-way between two time stamps of the list, the earliest
    and the latest, and so lies within the span of the observations. *)
Theorem mid_time_within_span (l : list Q) :
  (mid_time l = None <-> l = []) /\
  (forall m, mid_time l = Some m ->
     exists lo hi,
       In lo l /\ In hi l /\
       (forall x, In x l -> lo <= x <= hi) /\
       m == (lo + hi) / 2 /\ lo <= m <= hi).
Proof.
  unfold mid_time, list_min, list_max. destruct l as [|x t].
  - split; [split; reflexivity | discriminate].
  - split; [split; discriminate|]. intros m H. injection H as <-.
    destruct (fold_left_Qmin t x) as (I1 & L1 & A1).
    destruct (fold_left_Qmax t x) as (I2 & L2 & A2).
    exists (fold_left Qmin t x), (fold_left Qmax t x).
    split; [destruct I1 as [->|I1]; [now left | now right]|].
    split; [destruct I2 as [->|I2]; [now left | now right]|].
    split.
    { intros y [<-|Hy]; [split; assumption | split; [now apply A1 | now apply A2]]. }
    split; [field|]. lra.
Qed.

(** ** The history line *)

Lemma string_app_assoc (a b c : string) : ((a ++ b) ++ c = a ++ (b ++ c))%string.
Proof. induction a as [|x a IH]; cbn; [reflexivity | now rewrite IH]. Qed.

Lemma string_app_nil_r (a : string) : (a ++ "" = a)%string.
Proof. induction a as [|x a IH]; cbn; [reflexivity | now rewrite IH]. Qed.

Lemma drop_last_snoc (s : string) (c : Ascii.ascii) :
  drop_last (s ++ String c EmptyString) = s.
Proof.
  induction s as [|x s IH]; [reflexivity|].
  cbn [append drop_last]. rewrite IH.
  destruct s; reflexivity.
Qed.

Lemma header_string_fold (l : list (string * nat)) (acc : string) :
  fold_left (fun a c => (a ++ header_entry c)%string) l acc
  = (acc ++ fold_right (fun c r => header_entry c ++ r) "" l)%string.
Proof.
  revert acc. induction l as [|c l IH]; intros acc; cbn.
  - now rewrite string_app_nil_r.
  - now rewrite IH, string_app_assoc.
Qed.

(** For at least one CCD the text of the history line is ["nframes="]
    followed by the entries [CCDname(count)] separated by commas, with no
    comma at the end: the slice [[:-1]] removes exactly the comma that the
    last entry brought. *)
Theorem nframes_text_is_comma_separated (l : list (string * nat)) (Hne : l <> []) :
  nframes_text l
  = ("nframes=" ++
     String.concat "," (map (fun c => "CCD" ++ fst c ++ "(" ++ dec (snd c) ++ ")") l))%string.
Proof.
  unfold nframes_text, header_string. rewrite header_string_fold.
  set (body := fun c : string * nat => ("CCD" ++ fst c ++ "(" ++ dec (snd c) ++ ")")%string).
  assert (He : forall c, header_entry c = (body c ++ ",")%string).
  { intros c. unfold header_entry, body.
    rewrite !string_app_assoc. reflexivity. }
  assert (Hf : forall l0, l0 <> [] ->
             fold_right (fun c r => header_entry c ++ r)%string ""%string l0
             = (String.concat "," (map body l0) ++ ",")%string).
  { induction l0 as [|c l0 IH]; intros H0; [congruence|].
    cbn [fold_right map]. destruct l0 as [|c' l0].
    - cbn [fold_right map String.concat]. now rewrite He, string_app_nil_r.
    - rewrite IH by discriminate. cbn [map String.concat].
      rewrite He, !string_app_assoc. reflexivity. }
  rewrite (Hf l Hne), <- string_app_assoc. apply drop_last_snoc.
Qed.

Lemma nframes_text_is_comma_separated_witness :
  [("1"%string, 2%nat); ("2"%string, 10%nat)] <> [] /\
  nframes_text [("1"%string, 2%nat); ("2"%string, 10%nat)] = "nframes=CCD1(2),CCD2(10)"%string /\
  nframes_text [("1"%string, 2%nat); ("2"%string, 10%nat)]
  = ("nframes=" ++
     String.concat "," (map (fun c => "CCD" ++ fst c ++ "(" ++ dec (snd c) ++ ")")
                     [("1"%string, 2%nat); ("2"%string, 10%nat)]))%string.
Proof.
  split; [discriminate|]. split; [reflexivity|].
  apply (nframes_text_is_comma_separated [("1"%string, 2%nat); ("2"%string, 10%nat)]).
  discriminate.
Defined.

(** ** [CleanUp]: stripping the lines and removing the files *)

Lemma lstrip_app_space (pad s : string) :
  all_space pad = true -> lstrip (pad ++ s) = lstrip s.
Proof.
  induction pad as [|c pad IH]; cbn; [reflexivity|].
  intros H. apply andb_prop in H. destruct H as [-> H]. now apply IH.
Qed.

Lemma lstrip_all_space (pad : string) : all_space pad = true -> lstrip pad = ""%string.
Proof.
  induction pad as [|c pad IH]; cbn; [reflexivity|].
  intros H. apply andb_prop in H. destruct H as [-> H]. now apply IH.
Qed.

Lemma rstrip_all_space (pad : string) : all_space pad = true -> rstrip pad = ""%string.
Proof.
  induction pad as [|c pad IH]; cbn; [reflexivity|].
  intros H. apply andb_prop in H. destruct H as [Hc H]. now rewrite (IH H), Hc.
Qed.

Lemma rstrip_app_space (s pad : string) :
  all_space pad = true -> rstrip (s ++ pad) = rstrip s.
Proof.
  intros H. induction s as [|c s IH]; cbn [append rstrip].
  - now apply rstrip_all_space.
  - now rewrite IH.
Qed.

Lemma lstrip_length (s : string) : (String.length (lstrip s) <= String.length s)%nat.
Proof.
  induction s as [|c s IH]; cbn; [lia|]. destruct (is_space c); cbn; lia.
Qed.

Lemma lstrip_fixed (s : string) :
  lstrip s = s -> s = ""%string \/ exists c t, s = String c t /\ is_space c = false.
Proof.
  destruct s as [|c t]; [now left|]. intros H. right. exists c, t. split; [reflexivity|].
  cbn in H. destruct (is_space c); [|reflexivity].
  pose proof (lstrip_length t) as L. rewrite H in L. cbn in L. lia.
Qed.

Lemma lstrip_head (s : string) :
  lstrip s = ""%string \/ exists c t, lstrip s = String c t /\ is_space c = false.
Proof.
  induction s as [|c s IH]; [now left|]. cbn.
  destruct (is_space c) eqn:E; [exact IH|]. right. eauto.
Qed.

Lemma rstrip_idem (s : string) : rstrip (rstrip s) = rstrip s.
Proof.
  induction s as [|c s IH]; [reflexivity|]. cbn [rstrip].
  destruct (rstrip s) as [|c' r] eqn:E.
  - destruct (is_space c) eqn:Hc; [reflexivity|]. cbn. now rewrite Hc.
  - cbn [rstrip]. cbn [rstrip] in IH. rewrite IH. reflexivity.
Qed.

Lemma rstrip_head (c : Ascii.ascii) (t : string) :
  is_space c = false -> exists r, rstrip (String c t) = String c r.
Proof.
  intros H. cbn. destruct (rstrip t); [rewrite H|]; eauto.
Qed.

(** [strip] returns a string that neither starts nor ends with white
    space, and it returns exactly the core of a string made of white
    space, a core that is trimmed, and white space: a file name written on
    a line of the list is read back as it was written, and a blank line is
    read as the empty name. *)
Theorem strip_removes_padding (s : string) :
  trimmed (strip s) /\
  forall pad1 core pad2,
    all_space pad1 = true -> all_space pad2 = true -> trimmed core ->
    s = (pad1 ++ core ++ pad2)%string -> strip s = core.
Proof.
  split.
  - unfold trimmed, strip. split; [|apply rstrip_idem].
    destruct (lstrip_head s) as [E | (c & t & E & Hc)]; rewrite E; [reflexivity|].
    destruct (rstrip_head c t Hc) as [r ->]. cbn. now rewrite Hc.
  - intros pad1 core pad2 H1 H2 [Tl Tr] ->. unfold strip.
    rewrite (lstrip_app_space pad1 _ H1).
    destruct (lstrip_fixed core Tl) as [-> | (c & t & -> & Hc)].
    + cbn [append]. now rewrite (lstrip_all_space pad2 H2).
    + cbn [append lstrip]. rewrite Hc.
      change (String c (t ++ pad2)) with (String c t ++ pad2)%string.
      now rewrite (rstrip_app_space _ pad2 H2).
Qed.

Lemma existsb_eqb_In (q : string) (l : list string) :
  existsb (String.eqb q) l = true <-> In q l.
Proof.
  rewrite existsb_exists. split.
  - intros (x & Hx & E). apply String.eqb_eq in E. now subst.
  - intros H. exists q. split; [assumption | apply String.eqb_refl].
Qed.

Lemma remove_listed_ok (lines : list string) (fs : FS) :
  NoDup (map strip lines) ->
  (forall l, In l lines -> fs (strip l) <> None) ->
  exists fs',
    remove_listed lines fs = (fs', None) /\
    forall q, fs' q = if existsb (String.eqb q) (map strip lines) then None else fs q.
Proof.
  revert fs. induction lines as [|l lines IH]; intros fs Hnd Hex.
  - exists fs. split; reflexivity.
  - cbn [map] in Hnd. inversion Hnd as [|x xs Hnotin Hnd']; subst.
    cbn [remove_listed]. unfold os_remove.
    destruct (fs (strip l)) eqn:E; [|exfalso; apply (Hex l); [now left | exact E]].
    set (fs1 := fun q => if String.eqb q (strip l) then None else fs q).
    destruct (IH fs1 Hnd') as (fs' & R & Hfs').
    { intros l' Hl'. unfold fs1. destruct (String.eqb_spec (strip l') (strip l)) as [Eq|_].
      - exfalso. apply Hnotin. rewrite <- Eq. now apply in_map.
      - apply Hex. now right. }
    exists fs'. split; [exact R|]. intros q. rewrite Hfs'. cbn [map existsb]. unfold fs1.
    destruct (String.eqb q (strip l)); cbn [orb];
      destruct (existsb (String.eqb q) (map strip lines)); reflexivity.
Qed.

Lemma remove_listed_app (pre rest : list string) (fs : FS) :
  remove_listed (pre ++ rest) fs =
  match remove_listed pre fs with
  | (fs', None) => remove_listed rest fs'
  | (fs', Some e) => (fs', Some e)
  end.
Proof.
  revert fs. induction pre as [|l pre IH]; intros fs; [reflexivity|].
  cbn [app remove_listed]. destruct (os_remove (strip l) fs) as [fs1 [e|]]; [reflexivity|].
  apply IH.
Qed.

(** With [temp] set, a list whose lines name distinct files that all
    exist, none of them the list itself, is cleaned up completely: every
    file named in it and the list are gone, every other path is as it was.
    With [temp] unset nothing is touched. *)
Theorem CleanUp_exit_removes_all (flist : string) (lines : list string) (fs : FS)
  (Hlist : fs flist = Some lines)
  (Hnd : NoDup (map strip lines))
  (Hself : ~ In flist (map strip lines))
  (Hex : forall l, In l lines -> fs (strip l) <> None) :
  CleanUp_exit flist false fs = (fs, None) /\
  exists fs',
    CleanUp_exit flist true fs = (fs', None) /\
    (forall l, In l lines -> fs' (strip l) = None) /\
    fs' flist = None /\
    (forall q, q <> flist -> ~ In q (map strip lines) -> fs' q = fs q).
Proof.
  split; [reflexivity|].
  destruct (remove_listed_ok lines fs Hnd Hex) as (fs1 & R & Hfs1).
  unfold CleanUp_exit. rewrite Hlist, R. unfold os_remove.
  assert (E1 : fs1 flist = Some lines).
  { rewrite Hfs1. destruct (existsb (String.eqb flist) (map strip lines)) eqn:B;
      [apply existsb_eqb_In in B; contradiction | exact Hlist]. }
  rewrite E1. eexists. split; [reflexivity|]. cbn beta. split; [|split].
  - intros l Hl. destruct (String.eqb (strip l) flist); [reflexivity|].
    rewrite Hfs1.
    assert (B : existsb (String.eqb (strip l)) (map strip lines) = true)
      by (apply existsb_eqb_In; now apply in_map).
    now rewrite B.
  - now rewrite String.eqb_refl.
  - intros q Hq Hn. destruct (String.eqb_spec q flist); [contradiction|].
    rewrite Hfs1. destruct (existsb (String.eqb q) (map strip lines)) eqn:B;
      [apply existsb_eqb_In in B; contradiction | reflexivity].
Qed.

(** A line that names a file that is not there (a file already removed,
    a name listed twice, a blank line) stops the clean-up with
    FileNotFoundError: the files named before it are gone, and everything
    else, the files named after it and the list itself among them, is left
    on disk. *)
Theorem CleanUp_exit_stops_at_missing (flist : string) (pre post : list string)
  (l : string) (fs : FS)
  (Hlist : fs flist = Some (pre ++ l :: post))
  (Hnd : NoDup (map strip pre))
  (Hex : forall x, In x pre -> fs (strip x) <> None)
  (Hmiss : fs (strip l) = None \/ In (strip l) (map strip pre)) :
  exists fs',
    CleanUp_exit flist true fs = (fs', Some (FileNotFoundError (strip l))) /\
    (forall x, In x pre -> fs' (strip x) = None) /\
    (forall q, ~ In q (map strip pre) -> fs' q = fs q).
Proof.
  destruct (remove_listed_ok pre fs Hnd Hex) as (fs1 & R & Hfs1).
  assert (E : fs1 (strip l) = None).
  { rewrite Hfs1. destruct (existsb (String.eqb (strip l)) (map strip pre)) eqn:B;
      [reflexivity|].
    destruct Hmiss as [H|H]; [exact H|]. apply existsb_eqb_In in H. congruence. }
  exists fs1. unfold CleanUp_exit. rewrite Hlist, remove_listed_app, R.
  cbn [remove_listed]. unfold os_remove. rewrite E. split; [reflexivity|]. split.
  - intros x Hx. rewrite Hfs1.
    assert (B : existsb (String.eqb (strip x)) (map strip pre) = true)
      by (apply existsb_eqb_In; now apply in_map).
    now rewrite B.
  - intros q Hq. rewrite Hfs1.
    destruct (existsb (String.eqb q) (map strip pre)) eqn:B;
      [apply existsb_eqb_In in B; contradiction | reflexivity].
Qed.

Lemma toy_disk_lines_distinct :
  NoDup (map strip [("a.h" ++ newline)%string; (" b.h" ++ newline)%string]).
Proof.
  vm_compute. constructor; [|constructor; [|constructor]].
  - intros [H|[]]. discriminate.
  - intros [].
Defined.

Lemma CleanUp_exit_removes_all_witness :
  toy_disk "files.lis"%string = Some [("a.h" ++ newline)%string; (" b.h" ++ newline)%string] /\
  CleanUp_exit "files.lis"%string false toy_disk = (toy_disk, None) /\
  exists fs',
    CleanUp_exit "files.lis"%string true toy_disk = (fs', None) /\
    (forall l, In l [("a.h" ++ newline)%string; (" b.h" ++ newline)%string] ->
               fs' (strip l) = None) /\
    fs' "files.lis"%string = None /\
    (forall q, q <> "files.lis"%string ->
               ~ In q (map strip [("a.h" ++ newline)%string; (" b.h" ++ newline)%string]) ->
               fs' q = toy_disk q).
Proof.
  split; [reflexivity|].
  apply (CleanUp_exit_removes_all "files.lis"%string
           [("a.h" ++ newline)%string; (" b.h" ++ newline)%string] toy_disk eq_refl
           toy_disk_lines_distinct).
  - vm_compute. intros [H|[H|[]]]; discriminate.
  - intros l [<-|[<-|[]]]; vm_compute; discriminate.
Defined.

(** The list of [toy_disk] with a blank line between the two names. *)
Lemma CleanUp_exit_stops_at_missing_witness :
  exists fs',
    CleanUp_exit "files.lis"%string true
      (fun path =>
         if String.eqb path "files.lis"%string
         then Some ([("a.h" ++ newline)%string] ++ newline :: [(" b.h" ++ newline)%string])
         else toy_disk path)
      = (fs', Some (FileNotFoundError (strip newline))) /\
    strip newline = ""%string /\
    fs' "a.h"%string = None /\
    fs' "b.h"%string = Some [] /\
    fs' "files.lis"%string
      = Some ([("a.h" ++ newline)%string] ++ newline :: [(" b.h" ++ newline)%string]) /\
    (forall x, In x [("a.h" ++ newline)%string] -> fs' (strip x) = None).
Proof.
  destruct (CleanUp_exit_stops_at_missing "files.lis"%string
              [("a.h" ++ newline)%string] [(" b.h" ++ newline)%string] newline
              (fun path =>
                 if String.eqb path "files.lis"%string
                 then Some ([("a.h" ++ newline)%string] ++ newline
                            :: [(" b.h" ++ newline)%string])
                 else toy_disk path))
    as (fs' & E & Hpre & Hrest).
  - reflexivity.
  - vm_compute. constructor; [intros [] | constructor].
  - intros x [<-|[]]. vm_compute. discriminate.
  - left. reflexivity.
  - exists fs'. split; [exact E|]. split; [reflexivity|].
    split; [apply (Hpre ("a.h" ++ newline)%string); now left|].
    split; [rewrite Hrest; [reflexivity | vm_compute; intros [H|[]]; discriminate]|].
    split; [rewrite Hrest; [reflexivity | vm_compute; intros [H|[]]; discriminate]|].
    exact Hpre.
Defined.
